(** * improved_db.py: a bounded connection pool over PyMySQL

    Shallow embedding of [src/improved_db.py] (class [ImprovedDb]) and the
    properties of its pool manager and query helpers.

    The embedding follows one thread of control.  Everything outside the
    repository (the PyMySQL driver, [queue.Queue], the [logging] module) is
    represented by what the code can observe of it:
    - the driver is an oracle ([driver]) answering each call from the history
      of driver calls made so far, and every call is appended to that history;
    - [queue.Queue] is a FIFO list with its [maxsize], with the three outcomes
      a call can have for its caller: it returns, it raises, or it blocks
      for ever (no other thread will ever wake it up);
    - the module logger keeps the records that pass its level ([WARNING]). *)

From Stdlib Require Import List ZArith QArith String Bool Lia.
Import ListNotations.
Close Scope Q_scope.
Open Scope string_scope.
Open Scope list_scope.

(** ** Python values the code handles *)

(** A connection is known by its identity only. *)
Definition conn := nat.

(** A cursor remembers its connection and whether it is a [DictCursor]. *)
Record cursor := mkCursor { cur_conn : conn; cur_dict : bool }.

(** Objects that flow through [connect] and the pool: [connect] returns
    either a connection or a cursor, and the queue stores what it is given. *)
Inductive pyobj :=
| ConnObj (c : conn)
| CursorObj (cur : cursor).

Definition config := list (string * string).
Definition query := string.
Definition args := list string.

Inductive sqlval :=
| SqlNull
| SqlInt (z : Z)
| SqlStr (s : string).

(** A row is a tuple (default cursor) or a mapping ([DictCursor]). *)
Inductive row :=
| TupleRow (fields : list sqlval)
| DictRow (fields : list (string * sqlval)).

(** What [execute_query] hands back: [None], one row, or the fetched
    sequence itself. *)
Inductive query_result :=
| PyNone
| OneRow (r : row)
| Rows (rs : list row).

(** ** Exceptions *)

Inductive exn_class :=
| QueueEmpty | QueueFull
| ValueError | AttributeError
| MySQLWarning | InterfaceError | DatabaseError | DataError
| OperationalError | IntegrityError | InternalError
| ProgrammingError | NotSupportedError
| OtherException.

Record exn := mkExn { exn_cls : exn_class; exn_msg : string }.

Definition exn_class_eqb (a b : exn_class) : bool :=
  match a, b with
  | QueueEmpty, QueueEmpty | QueueFull, QueueFull
  | ValueError, ValueError | AttributeError, AttributeError
  | MySQLWarning, MySQLWarning | InterfaceError, InterfaceError
  | DatabaseError, DatabaseError | DataError, DataError
  | OperationalError, OperationalError | IntegrityError, IntegrityError
  | InternalError, InternalError | ProgrammingError, ProgrammingError
  | NotSupportedError, NotSupportedError
  | OtherException, OtherException => true
  | _, _ => false
  end.

(** The [except (ProgrammingError, InternalError, IntegrityError,
    NotSupportedError)] clause of [execute_query_multiplex]. *)
Definition is_statement_error (e : exn) : bool :=
  match exn_cls e with
  | ProgrammingError | InternalError | IntegrityError | NotSupportedError => true
  | _ => false
  end.

Definition queue_Empty : exn := mkExn QueueEmpty "".
Definition queue_Full : exn := mkExn QueueFull "".
Definition timeout_ValueError : exn :=
  mkExn ValueError "'timeout' must be a non-negative number".
Definition no_attribute (name : string) : exn :=
  mkExn AttributeError
    (String.append "'ImprovedDb' object has no attribute '" (String.append name "'")).

(** ** Logging *)

Inductive level := DEBUG | INFO | WARNING | ERROR.

Definition levelno (l : level) : Z :=
  match l with
  | DEBUG => 10 | INFO => 20 | WARNING => 30 | ERROR => 40
  end%Z.

Inductive log_arg :=
| NoArg
| ArgObj (o : pyobj)
| ArgExn (e : exn)
| ArgQueue (items : list pyobj).

Record log_record := mkLog { log_level : level; log_text : string; log_with : log_arg }.

(** [logger.setLevel('WARNING')] *)
Definition logger_level : level := WARNING.

(** ** queue.Queue *)

Inductive outcome (A : Type) :=
| Returned (a : A)
| Raised (e : exn)
| Blocked.
Arguments Returned {A} a.
Arguments Raised {A} e.
Arguments Blocked {A}.

(** [queue] is the attribute of the same name (the deque of items). *)
Record Queue := mkQueue { maxsize : Z; queue : list pyobj }.

Definition Queue_new (maxsize : Z) : Queue := mkQueue maxsize [].

Definition qsize (q : Queue) : Z := Z.of_nat (List.length (queue q)).

(** [maxsize > 0 and qsize() >= maxsize] *)
Definition Queue_full (q : Queue) : bool :=
  ((0 <? maxsize q) && (maxsize q <=? qsize q))%Z.

(** [Queue.get(timeout=timeout)] with [block=True]:
    - [timeout is None]: waits until an item is there;
    - [timeout < 0]: [ValueError], whatever the queue holds;
    - otherwise: the first item, or [Empty] once the time is over. *)
Definition Queue_get (q : Queue) (timeout : option Q) : outcome (pyobj * Queue) :=
  match timeout with
  | None =>
      match queue q with
      | [] => Blocked
      | item :: rest => Returned (item, mkQueue (maxsize q) rest)
      end
  | Some t =>
      if negb (Qle_bool 0 t) then Raised timeout_ValueError
      else
        match queue q with
        | [] => Raised queue_Empty
        | item :: rest => Returned (item, mkQueue (maxsize q) rest)
        end
  end.

(** [Queue.put_nowait(item)] *)
Definition Queue_put_nowait (q : Queue) (item : pyobj) : outcome Queue :=
  if Queue_full q then Raised queue_Full
  else Returned (mkQueue (maxsize q) (queue q ++ [item])).

(** [Queue.put(item)]: blocks while the queue is full. *)
Definition Queue_put (q : Queue) (item : pyobj) : outcome Queue :=
  if Queue_full q then Blocked
  else Returned (mkQueue (maxsize q) (queue q ++ [item])).

(** ** The driver *)

Inductive call :=
| CallConnect (cfg : config)
| CallCursor (c : conn) (dict : bool)
| CallExecute (cur : cursor) (many : bool) (q : query) (a : args)
| CallFetchall (cur : cursor)
| CallCursorClose (cur : cursor)
| CallConnClose (c : conn).

(** The driver answers from the calls made before.  For [connect] and
    [execute]/[executemany], [None] stands for a call that does not raise;
    [fetchall] raises ([inl]) or returns the rows ([inr]). *)
Record driver := mkDriver {
  drv_connect : list call -> config -> option exn;
  drv_execute : list call -> cursor -> bool -> query -> args -> option exn;
  drv_fetchall : list call -> cursor -> exn + list row
}.

Definition is_connect (c : call) : bool :=
  match c with CallConnect _ => true | _ => false end.

(** Number of times [pymysql.connect] was invoked. *)
Definition connect_count (h : list call) : nat :=
  List.length (filter is_connect h).

Definition closes (c : conn) (k : call) : bool :=
  match k with CallConnClose c' => Nat.eqb c c' | _ => false end.

(** Whether [close()] was ever called on connection [c]. *)
Definition conn_closed (c : conn) (h : list call) : bool :=
  existsb (closes c) h.

(** ** The object and the world around it *)

(** The three attributes [__init__] sets only [if pool]. *)
Record pool_attrs := mkPoolAttrs {
  POOL_HARD_LIMIT : Z;
  pool_init_size : Z;
  pool : Queue
}.

Record ImprovedDb := mkImprovedDb {
  db_config : config;
  pooled : option pool_attrs
}.

Record world := mkWorld {
  self : ImprovedDb;
  calls : list call;
  log : list log_record
}.

Definition ImprovedDb_init (db_config : config) (pool : bool) (pool_init_size : Z)
  : ImprovedDb :=
  mkImprovedDb db_config
    (if pool
     then Some (mkPoolAttrs 100 pool_init_size (Queue_new 100))
     else None).

(** Items held by the pool store (none when the object has no pool). *)
Definition pool_items (w : world) : list pyobj :=
  match pooled (self w) with
  | Some pa => queue (pool pa)
  | None => []
  end.

Definition set_pool (q : Queue) (w : world) : world :=
  match pooled (self w) with
  | Some pa =>
      mkWorld
        (mkImprovedDb (db_config (self w))
           (Some (mkPoolAttrs (POOL_HARD_LIMIT pa) (pool_init_size pa) q)))
        (calls w) (log w)
  | None => w
  end.

(** ** A monad for the effects: state, exceptions, blocking *)

Definition M (A : Type) : Type := world -> outcome A * world.

Definition ret {A} (a : A) : M A := fun w => (Returned a, w).

Definition raise {A} (e : exn) : M A := fun w => (Raised e, w).

Definition bind {A B} (m : M A) (k : A -> M B) : M B :=
  fun w =>
    match m w with
    | (Returned a, w') => k a w'
    | (Raised e, w') => (Raised e, w')
    | (Blocked, w') => (Blocked, w')
    end.

(** [try: m  except Exception as e: h e] *)
Definition try_except {A} (m : M A) (h : exn -> M A) : M A :=
  fun w =>
    match m w with
    | (Raised e, w') => h e w'
    | r => r
    end.

(** [try: m  finally: f] *)
Definition finally {A} (m : M A) (f : M unit) : M A :=
  fun w =>
    match m w with
    | (Returned a, w') =>
        match f w' with
        | (Returned _, w'') => (Returned a, w'')
        | (Raised e, w'') => (Raised e, w'')
        | (Blocked, w'') => (Blocked, w'')
        end
    | (Raised e, w') =>
        match f w' with
        | (Returned _, w'') => (Raised e, w'')
        | (Raised e', w'') => (Raised e', w'')
        | (Blocked, w'') => (Blocked, w'')
        end
    | (Blocked, w') => (Blocked, w')
    end.

Declare Scope py_scope.
Delimit Scope py_scope with py.
Notation "x <- m ;; k" := (bind m (fun x => k))
  (at level 61, m at next level, right associativity) : py_scope.
Notation "m ;; k" := (bind m (fun _ => k))
  (at level 61, right associativity) : py_scope.
Open Scope py_scope.

(** [logger.<lvl>(text.format(arg))]: kept when the level passes. *)
Definition logger (lvl : level) (text : string) (arg : log_arg) : M unit :=
  fun w =>
    (Returned tt,
     if (levelno logger_level <=? levelno lvl)%Z
     then mkWorld (self w) (calls w) (log w ++ [mkLog lvl text arg])
     else w).

Definition record_call (k : call) (w : world) : world :=
  mkWorld (self w) (calls w ++ [k]) (log w).

(** [self.pool], [self.pool_init_size] *)
Definition self_pool : M Queue :=
  fun w =>
    match pooled (self w) with
    | Some pa => (Returned (pool pa), w)
    | None => (Raised (no_attribute "pool"), w)
    end.

Definition self_pool_init_size : M Z :=
  fun w =>
    match pooled (self w) with
    | Some pa => (Returned (pool_init_size pa), w)
    | None => (Raised (no_attribute "pool_init_size"), w)
    end.

(** Run a queue operation on [self.pool] and store the queue it leaves. *)
Definition on_pool {A} (op : Queue -> outcome (A * Queue)) : M A :=
  q <- self_pool ;;
  fun w =>
    match op q with
    | Returned (a, q') => (Returned a, set_pool q' w)
    | Raised e => (Raised e, w)
    | Blocked => (Blocked, w)
    end.

Definition with_unit (r : outcome Queue) : outcome (unit * Queue) :=
  match r with
  | Returned q' => Returned (tt, q')
  | Raised e => Raised e
  | Blocked => Blocked
  end.

Definition pool_get (timeout : option Q) : M pyobj :=
  on_pool (fun q => Queue_get q timeout).

Definition pool_put_nowait (item : pyobj) : M unit :=
  on_pool (fun q => with_unit (Queue_put_nowait q item)).

Definition pool_put (item : pyobj) : M unit :=
  on_pool (fun q => with_unit (Queue_put q item)).

Section Driver.

Variable drv : driver.

(** [pymysql.connect] on the keywords of [self.db_config]: the new connection is numbered by
    the connect calls made before it. *)
Definition pymysql_connect : M conn :=
  fun w =>
    let cfg := db_config (self w) in
    let w' := record_call (CallConnect cfg) w in
    match drv_connect drv (calls w) cfg with
    | None => (Returned (connect_count (calls w)), w')
    | Some e => (Raised e, w')
    end.

(** [connection.cursor()] / [connection.cursor(pymysql.cursors.DictCursor)] *)
Definition conn_cursor (connection : conn) (dictcursor : bool) : M cursor :=
  fun w => (Returned (mkCursor connection dictcursor),
            record_call (CallCursor connection dictcursor) w).

(** [cur.execute(query, args)] ([many = false]) and
    [cur.executemany(query, args)] ([many = true]). *)
Definition cursor_execute (cur : cursor) (many : bool) (q : query) (a : args)
  : M unit :=
  fun w =>
    let w' := record_call (CallExecute cur many q a) w in
    match drv_execute drv (calls w) cur many q a with
    | None => (Returned tt, w')
    | Some e => (Raised e, w')
    end.

(** [cur.fetchall()] *)
Definition cursor_fetchall (cur : cursor) : M (list row) :=
  fun w =>
    let w' := record_call (CallFetchall cur) w in
    match drv_fetchall drv (calls w) cur with
    | inr rows => (Returned rows, w')
    | inl e => (Raised e, w')
    end.

(** [cur.close()] *)
Definition cursor_close (cur : cursor) : M unit :=
  fun w => (Returned tt, record_call (CallCursorClose cur) w).

(** [connection.close()] *)
Definition conn_close (connection : conn) : M unit :=
  fun w => (Returned tt, record_call (CallConnClose connection) w).

(** [with connection.cursor(...) as cur: body]: the cursor's [__exit__]
    closes it on the way out. *)
Definition with_cursor {A} (connection : conn) (dictcursor : bool)
    (body : cursor -> M A) : M A :=
  cur <- conn_cursor connection dictcursor ;;
  finally (body cur) (cursor_close cur).

(** ** The methods of [ImprovedDb] *)

Definition connect (cursor dictcursor recreate : bool) : M pyobj :=
  try_except
    (conn <- pymysql_connect ;;
     (if recreate
      then logger INFO "create new connection because of pool lacking" NoArg ;;
           logger DEBUG "create new connection because of pool lacking: {}"
             (ArgObj (ConnObj conn))
      else ret tt) ;;
     if negb cursor
     then ret (ConnObj conn)
     else cur <- conn_cursor conn dictcursor ;; ret (CursorObj cur))
    (fun err =>
       (if recreate
        then logger ERROR "recreate connection error when pool lacking: {}" (ArgExn err)
        else logger ERROR "create connection error: {}" (ArgExn err)) ;;
       raise err).

(** [(res[0] if res else None) if return_one else res] *)
Definition shape (return_one : bool) (res : list row) : query_result :=
  if return_one
  then match res with
       | r :: _ => OneRow r
       | [] => PyNone
       end
  else Rows res.

Definition execute_query (connection : conn) (query : query) (args : args)
    (dictcursor return_one exec_many : bool) : M query_result :=
  res <- with_cursor connection dictcursor (fun cur =>
           try_except
             (if exec_many
              then cursor_execute cur true query args
              else cursor_execute cur false query args)
             (fun e => raise e) ;;
           cursor_fetchall cur) ;;
  ret (shape return_one res).

Definition pool_put_connection (connection : pyobj) (conn_type : string) : M unit :=
  try_except
    (logger DEBUG "return connection: {}" (ArgObj connection) ;;
     pool_put_nowait connection)
    (fun e =>
       if exn_class_eqb (exn_cls e) QueueFull
       then if String.eqb conn_type "new"
            then logger WARNING "can't put new connection to pool" NoArg
            else logger WARNING "can't put old connection back to pool" NoArg
       else raise e).

Definition execute_query_multiplex (connection : conn) (query : query)
    (args : args) (dictcursor return_one exec_many : bool) : M query_result :=
  res <- with_cursor connection dictcursor (fun cur =>
           try_except
             (if exec_many
              then cursor_execute cur true query args
              else cursor_execute cur false query args)
             (fun e =>
                if is_statement_error e
                then cursor_close cur ;;
                     pool_put_connection (ConnObj connection) "old" ;;
                     raise e
                else raise e) ;;
           res <- cursor_fetchall cur ;;
           pool_put_connection (ConnObj connection) "old" ;;
           ret res) ;;
  ret (shape return_one res).

(** [for i in range(n): body] *)
Fixpoint for_range (n : nat) (body : M unit) : M unit :=
  match n with
  | O => ret tt
  | S n' => body ;; for_range n' body
  end.

Definition create_pool : M unit :=
  logger DEBUG "init connection pool" NoArg ;;
  n <- self_pool_init_size ;;
  for_range (Z.to_nat n)
    (conn <- connect false false false ;;
     pool_put conn) ;;
  q <- self_pool ;;
  logger DEBUG "pool object: {}" (ArgQueue (queue q)).

(** One activation of [pool_get_connection]; [self_call] is the recursive
    call [self.pool_get_connection(timeout, retry_num-1)].  Falling off the
    end of the function returns [None]. *)
Definition pool_get_connection_body
    (self_call : option Q -> Z -> M (option pyobj))
    (timeout : option Q) (retry_num : Z) : M (option pyobj) :=
  try_except
    (conn <- pool_get timeout ;;
     logger DEBUG "get connection: {}" (ArgObj conn) ;;
     ret (Some conn))
    (fun e =>
       if exn_class_eqb (exn_cls e) QueueEmpty
       then logger WARNING "get connection from pool timeout" NoArg ;;
            conn <- connect false false true ;;
            pool_put_connection conn "new" ;;
            if (0 <? retry_num)%Z
            then logger WARNING "retry get connection from pool" NoArg ;;
                 self_call timeout (retry_num - 1)%Z
            else ret None
       else raise e).

(** The recursion goes down on [retry_num] while it is positive, so
    [Z.to_nat retry_num] activations below the first always suffice. *)
Fixpoint pool_get_connection_depth (depth : nat) (timeout : option Q)
    (retry_num : Z) : M (option pyobj) :=
  pool_get_connection_body
    (match depth with
     | O => fun _ _ w => (Blocked, w)
     | S d => pool_get_connection_depth d
     end)
    timeout retry_num.

Definition pool_get_connection (timeout : option Q) (retry_num : Z)
  : M (option pyobj) :=
  pool_get_connection_depth (Z.to_nat retry_num) timeout retry_num.

(** [db_close] *)
Definition db_close (connection : conn) : M unit :=
  conn_close connection ;;
  logger DEBUG "close connection: {}" (ArgObj (ConnObj connection)).

End Driver.

(** ** Vocabulary of the properties *)

(** The ceiling [__init__] gives the pool store. *)
Definition HARD_LIMIT : Z := 100.

(** Driver history when [execute_query] (or the multiplex variant) runs the
    statement, and when it fetches the rows. *)
Definition history_at_execute (w : world) (connection : conn) (dictcursor : bool)
  : list call :=
  calls w ++ [CallCursor connection dictcursor].

Definition history_at_fetch (w : world) (connection : conn)
    (dictcursor exec_many : bool) (q : query) (a : args) : list call :=
  history_at_execute w connection dictcursor
  ++ [CallExecute (mkCursor connection dictcursor) exec_many q a].

(** The calls a client can make on the object. *)
Inductive method_call :=
| Connect (cursor dictcursor recreate : bool)
| CreatePool
| Acquire (timeout : option Q) (retry_num : Z)
| Release (connection : pyobj) (conn_type : string)
| Execute (connection : conn) (q : query) (a : args)
    (dictcursor return_one exec_many : bool)
| ExecuteAndRelease (connection : conn) (q : query) (a : args)
    (dictcursor return_one exec_many : bool)
| Close (connection : conn).

(** The world a call leaves behind, whatever its outcome. *)
Definition step (drv : driver) (w : world) (m : method_call) : world :=
  match m with
  | Connect c d r => snd (connect drv c d r w)
  | CreatePool => snd (create_pool drv w)
  | Acquire t r => snd (pool_get_connection drv t r w)
  | Release c ty => snd (pool_put_connection c ty w)
  | Execute c q a d ro em => snd (execute_query drv c q a d ro em w)
  | ExecuteAndRelease c q a d ro em =>
      snd (execute_query_multiplex drv c q a d ro em w)
  | Close c => snd (db_close c w)
  end.

Definition run (drv : driver) (ms : list method_call) (w : world) : world :=
  fold_left (step drv) ms w.

(** The store belongs to a pooled object and respects its ceiling. *)
Definition pool_inv (w : world) : Prop :=
  exists pa,
    pooled (self w) = Some pa /\
    maxsize (pool pa) = HARD_LIMIT /\
    (qsize (pool pa) <= HARD_LIMIT)%Z.

(** A computation keeps the invariant, however it ends. *)
Definition keeps {A} (m : M A) : Prop :=
  forall w, pool_inv w -> pool_inv (snd (m w)).

(** The store is the one [__init__] made and holds [HARD_LIMIT] items. *)
Definition store_full (w : world) : Prop :=
  exists pa,
    pooled (self w) = Some pa /\
    maxsize (pool pa) = HARD_LIMIT /\
    qsize (pool pa) = HARD_LIMIT.

(** The object has a pool and its store is empty. *)
Definition store_empty (w : world) : Prop :=
  exists pa, pooled (self w) = Some pa /\ queue (pool pa) = [].

(** What a queue operation must satisfy for [on_pool] to keep the invariant. *)
Definition bounded_op {A} (op : Queue -> outcome (A * Queue)) : Prop :=
  forall q a q',
    maxsize q = HARD_LIMIT -> (qsize q <= HARD_LIMIT)%Z ->
    op q = Returned (a, q') ->
    maxsize q' = HARD_LIMIT /\ (qsize q' <= HARD_LIMIT)%Z.

(** The statement-error rule as the specification words it: the connection
    is closed, it is not in the store afterwards, and the error comes out
    unchanged. *)
Definition discards_on_statement_error (drv : driver) (connection : conn)
    (q : query) (a : args) (dictcursor return_one exec_many : bool)
    (w : world) : Prop :=
  forall e,
    drv_execute drv (history_at_execute w connection dictcursor)
      (mkCursor connection dictcursor) exec_many q a = Some e ->
    is_statement_error e = true ->
    let r := execute_query_multiplex drv connection q a dictcursor return_one
               exec_many w in
    fst r = Raised e /\
    conn_closed connection (calls (snd r)) = true /\
    ~ In (ConnObj connection) (pool_items (snd r)).

(** The full-store release rule as the specification words it: the
    connection is closed, the store keeps its size, nothing is raised. *)
Definition closes_on_full_release (connection : conn) (conn_type : string)
    (w : world) : Prop :=
  store_full w ->
  let r := pool_put_connection (ConnObj connection) conn_type w in
  fst r = Returned tt /\
  List.length (pool_items (snd r)) = List.length (pool_items w) /\
  conn_closed connection (calls (snd r)) = true.

(** ** Sample drivers and worlds *)

(** A driver that answers every call of a kind the same way. *)
Definition fixed_driver (on_connect on_execute : option exn) (rows : list row)
  : driver :=
  mkDriver (fun _ _ => on_connect) (fun _ _ _ _ _ => on_execute)
    (fun _ _ => inr rows).

Definition syntax_error : exn :=
  mkExn ProgrammingError "(1064, 'You have an error in your SQL syntax')".

Definition server_down : exn :=
  mkExn OperationalError "(2003, 'Connection refused')".

Definition sample_config : config := [("host", "localhost"); ("db", "test")].

(** A pooled object just built, and the same after [create_pool]. *)
Definition fresh_world (init_size : Z) : world :=
  mkWorld (ImprovedDb_init sample_config true init_size) [] [].

Definition filled_world (drv : driver) (init_size : Z) : world :=
  snd (create_pool drv (fresh_world init_size)).

(** A pool of two from which connection 0 has been borrowed. *)
Definition borrowed_world (drv : driver) : world :=
  snd (pool_get_connection drv (Some 3%Q) 1 (filled_world drv 2)).

Definition two_rows : list row :=
  [TupleRow [SqlInt 1; SqlStr "a"]; TupleRow [SqlInt 2; SqlStr "b"]].

(** ** Vocabulary of the further properties *)

(** A timeout with which [Queue.get] waits: [None] or a number not below 0. *)
Definition can_wait (timeout : option Q) : Prop :=
  match timeout with
  | None => True
  | Some t => (0 <= t)%Q
  end.

(** Every run of a computation relates the world it starts in to the world
    it leaves, however it ends. *)
Definition respects {A} (R : world -> world -> Prop) (m : M A) : Prop :=
  forall w, R w (snd (m w)).

(** The same [close] calls were made in both worlds. *)
Definition same_closed (w w' : world) : Prop :=
  forall c, conn_closed c (calls w') = conn_closed c (calls w).

(** The object (configuration, pool attributes, store) is the same. *)
Definition same_self (w w' : world) : Prop := self w' = self w.

Definition is_close (m : method_call) : bool :=
  match m with Close _ => true | _ => false end.

(** Calls that go through the driver only: they take no store. *)
Definition storeless (m : method_call) : bool :=
  match m with
  | Connect _ _ _ | Execute _ _ _ _ _ _ | Close _ => true
  | _ => false
  end.

(** The history after [i] more calls of [pymysql.connect]. *)
Definition after_connects (w : world) (i : nat) : list call :=
  calls w ++ repeat (CallConnect (db_config (self w))) i.

(** The factory works for the next [k] calls. *)
Definition connects_next (drv : driver) (w : world) (k : nat) : Prop :=
  forall i, (i < k)%nat ->
    drv_connect drv (after_connects w i) (db_config (self w)) = None.

(** A driver whose [connect] works [k] times and fails with [e] from then on. *)
Definition failing_after (k : nat) (e : exn) : driver :=
  mkDriver
    (fun h _ => if (connect_count h <? k)%nat then None else Some e)
    (fun _ _ _ _ _ => None)
    (fun _ _ => inr []).

(** An object built without a pool. *)
Definition plain_world : world :=
  mkWorld (ImprovedDb_init sample_config false 10) [] [].

Definition execute_first : exn := mkExn ProgrammingError "execute() first".

(** A driver in which [executemany] on no arguments executes nothing, so
    that the [fetchall] which follows it raises. *)
Definition idle_executemany_driver (rows : list row) : driver :=
  mkDriver
    (fun _ _ => None)
    (fun _ _ _ _ _ => None)
    (fun h _ =>
       match last h (CallConnect []) with
       | CallExecute _ true _ [] => inl execute_first
       | _ => inr rows
       end).

(** * Properties *)

(** ** [queue.Queue] *)

Lemma Queue_full_empty (ms : Z) : Queue_full (mkQueue ms []) = false.
Proof.
  unfold Queue_full, qsize; simpl.
  destruct (0 <? ms)%Z eqn:E1; simpl; [|reflexivity].
  apply Z.ltb_lt in E1. apply Z.leb_gt. lia.
Qed.

Lemma Queue_full_at_limit (q : Queue) :
  maxsize q = HARD_LIMIT -> qsize q = HARD_LIMIT -> Queue_full q = true.
Proof.
  unfold Queue_full, HARD_LIMIT; intros -> ->; reflexivity.
Qed.

Lemma valid_timeout (t : Q) : (0 <= t)%Q -> negb (Qle_bool 0 t) = false.
Proof.
  intros H. apply Qle_bool_iff in H. rewrite H. reflexivity.
Qed.

(** ** The recursion of [pool_get_connection] *)

Lemma pool_get_connection_body_ext drv f g timeout retry_num w :
  ((0 < retry_num)%Z -> forall w', f timeout (retry_num - 1)%Z w' = g timeout (retry_num - 1)%Z w') ->
  pool_get_connection_body drv f timeout retry_num w
  = pool_get_connection_body drv g timeout retry_num w.
Proof.
  intros Hfg.
  unfold pool_get_connection_body, try_except.
  destruct (bind (pool_get timeout) _ w) as [[x|e|] w1]; try reflexivity.
  destruct (exn_class_eqb (exn_cls e) QueueEmpty); [|reflexivity].
  unfold bind.
  destruct (logger WARNING _ _ w1) as [[x|e1|] w2]; try reflexivity.
  destruct (connect drv false false true w2) as [[c|e2|] w3]; try reflexivity.
  destruct (pool_put_connection c "new" w3) as [[u|e3|] w4]; try reflexivity.
  destruct (0 <? retry_num)%Z eqn:E; [|reflexivity].
  apply Z.ltb_lt in E.
  destruct (logger WARNING _ _ w4) as [[u'|e4|] w5]; try reflexivity.
  apply Hfg; assumption.
Qed.

(** The defining equation, as the source has it: the function calls itself
    with [retry_num - 1]. *)
Lemma pool_get_connection_eq drv timeout retry_num w :
  pool_get_connection drv timeout retry_num w
  = pool_get_connection_body drv (pool_get_connection drv) timeout retry_num w.
Proof.
  unfold pool_get_connection at 1.
  destruct (Z.to_nat retry_num) as [|d] eqn:E; simpl.
  - apply pool_get_connection_body_ext; intros; lia.
  - apply pool_get_connection_body_ext; intros Hpos w'.
    unfold pool_get_connection.
    replace (Z.to_nat (retry_num - 1)) with d by lia. reflexivity.
Qed.

(** ** The capacity invariant, one construct at a time *)

Lemma pool_inv_self w w' : self w' = self w -> pool_inv w -> pool_inv w'.
Proof. unfold pool_inv; intros ->; trivial. Qed.

Lemma keeps_ret {A} (a : A) : keeps (ret a).
Proof. intros w H; exact H. Qed.

Lemma keeps_raise {A} (e : exn) : keeps (@raise A e).
Proof. intros w H; exact H. Qed.

Lemma keeps_bind {A B} (m : M A) (k : A -> M B) :
  keeps m -> (forall a, keeps (k a)) -> keeps (bind m k).
Proof.
  intros Hm Hk w Hw. specialize (Hm w Hw). unfold bind.
  destruct (m w) as [[a|e|] w1]; simpl in *; trivial.
  apply Hk; assumption.
Qed.

Lemma keeps_try_except {A} (m : M A) (h : exn -> M A) :
  keeps m -> (forall e, keeps (h e)) -> keeps (try_except m h).
Proof.
  intros Hm Hh w Hw. specialize (Hm w Hw). unfold try_except.
  destruct (m w) as [[a|e|] w1]; simpl in *; trivial.
  apply Hh; assumption.
Qed.

Lemma keeps_finally {A} (m : M A) (f : M unit) :
  keeps m -> keeps f -> keeps (finally m f).
Proof.
  intros Hm Hf w Hw. specialize (Hm w Hw). unfold finally.
  destruct (m w) as [[a|e|] w1]; simpl in *; trivial;
    specialize (Hf w1 Hm); destruct (f w1) as [[u|e'|] w2]; simpl in *; trivial.
Qed.

Lemma keeps_logger lvl text arg : keeps (logger lvl text arg).
Proof.
  intros w Hw. unfold logger. cbv beta. unfold snd.
  destruct (levelno logger_level <=? levelno lvl)%Z; exact Hw.
Qed.

Lemma pool_inv_record_call k w : pool_inv w -> pool_inv (record_call k w).
Proof. apply pool_inv_self. reflexivity. Qed.

Lemma keeps_self_pool : keeps self_pool.
Proof.
  intros w Hw. unfold self_pool. destruct (pooled (self w)); exact Hw.
Qed.

Lemma keeps_self_pool_init_size : keeps self_pool_init_size.
Proof.
  intros w Hw. unfold self_pool_init_size. destruct (pooled (self w)); exact Hw.
Qed.

Lemma pool_inv_set_pool q w :
  pool_inv w -> maxsize q = HARD_LIMIT -> (qsize q <= HARD_LIMIT)%Z ->
  pool_inv (set_pool q w).
Proof.
  intros (pa & Hpa & _) Hm Hs. unfold set_pool. rewrite Hpa.
  eexists; simpl; split; [reflexivity|]. simpl; auto.
Qed.

Lemma qsize_app q item :
  qsize (mkQueue (maxsize q) (queue q ++ [item])) = (qsize q + 1)%Z.
Proof.
  unfold qsize; simpl. rewrite length_app; simpl. lia.
Qed.

Lemma qsize_rest ms item rest :
  (qsize (mkQueue ms rest) <= qsize (mkQueue ms (item :: rest)))%Z.
Proof. unfold qsize; simpl. lia. Qed.

Lemma keeps_on_pool {A} (op : Queue -> outcome (A * Queue)) :
  bounded_op op -> keeps (on_pool op).
Proof.
  intros Hop w Hw. unfold on_pool, bind, self_pool.
  destruct Hw as (pa & Hpa & Hm & Hs). rewrite Hpa.
  destruct (op (pool pa)) as [[a q']| |] eqn:E; simpl;
    try solve [exists pa; auto].
  destruct (Hop _ _ _ Hm Hs E).
  apply pool_inv_set_pool; trivial. exists pa; auto.
Qed.

Lemma bounded_get timeout : bounded_op (fun q => Queue_get q timeout).
Proof.
  intros [ms items] a q' Hm Hs; simpl in *. unfold Queue_get; simpl.
  assert (forall item rest, items = item :: rest ->
            maxsize (mkQueue ms rest) = HARD_LIMIT /\
            (qsize (mkQueue ms rest) <= HARD_LIMIT)%Z) as Hrest.
  { intros item rest ->. split; [exact Hm|].
    pose proof (qsize_rest ms item rest). lia. }
  destruct timeout as [t|].
  - destruct (negb (Qle_bool 0 t)); [discriminate|].
    destruct items as [|item rest]; [discriminate|].
    intros [= <- <-]. eapply Hrest; reflexivity.
  - destruct items as [|item rest]; [discriminate|].
    intros [= <- <-]. eapply Hrest; reflexivity.
Qed.

Lemma not_full_room q :
  maxsize q = HARD_LIMIT -> Queue_full q = false ->
  (qsize q + 1 <= HARD_LIMIT)%Z.
Proof.
  unfold Queue_full, HARD_LIMIT. intros ->. simpl.
  intros H. apply Z.leb_gt in H. lia.
Qed.

Lemma bounded_put_nowait item :
  bounded_op (fun q => with_unit (Queue_put_nowait q item)).
Proof.
  intros q a q' Hm Hs. unfold Queue_put_nowait.
  destruct (Queue_full q) eqn:E; simpl; [discriminate|].
  intros [= _ <-]. split; [exact Hm|].
  rewrite qsize_app. apply not_full_room; assumption.
Qed.

Lemma bounded_put item :
  bounded_op (fun q => with_unit (Queue_put q item)).
Proof.
  intros q a q' Hm Hs. unfold Queue_put.
  destruct (Queue_full q) eqn:E; simpl; [discriminate|].
  intros [= _ <-]. split; [exact Hm|].
  rewrite qsize_app. apply not_full_room; assumption.
Qed.

Create HintDb keeps.
#[local] Hint Resolve keeps_ret keeps_raise keeps_logger keeps_self_pool
  keeps_self_pool_init_size : keeps.

Ltac keeps_step :=
  cbv beta;
  match goal with
  | |- keeps (bind _ _) => apply keeps_bind; [|intro]
  | |- keeps (try_except _ _) => apply keeps_try_except; [|intro]
  | |- keeps (finally _ _) => apply keeps_finally
  | |- keeps (if ?b then _ else _) => destruct b
  | |- keeps _ => solve [auto with keeps]
  end.

Section Invariant.

Variable drv : driver.

Lemma keeps_pymysql_connect : keeps (pymysql_connect drv).
Proof.
  intros w Hw. unfold pymysql_connect.
  destruct (drv_connect drv (calls w) (db_config (self w)));
    simpl; apply pool_inv_record_call; exact Hw.
Qed.

Lemma keeps_conn_cursor c d : keeps (conn_cursor c d).
Proof. intros w Hw; simpl. apply pool_inv_record_call; exact Hw. Qed.

Lemma keeps_cursor_execute cur many q a : keeps (cursor_execute drv cur many q a).
Proof.
  intros w Hw. unfold cursor_execute.
  destruct (drv_execute drv (calls w) cur many q a);
    simpl; apply pool_inv_record_call; exact Hw.
Qed.

Lemma keeps_cursor_fetchall cur : keeps (cursor_fetchall drv cur).
Proof.
  intros w Hw. unfold cursor_fetchall.
  destruct (drv_fetchall drv (calls w) cur);
    simpl; apply pool_inv_record_call; exact Hw.
Qed.

Lemma keeps_cursor_close cur : keeps (cursor_close cur).
Proof. intros w Hw; simpl. apply pool_inv_record_call; exact Hw. Qed.

Lemma keeps_conn_close c : keeps (conn_close c).
Proof. intros w Hw; simpl. apply pool_inv_record_call; exact Hw. Qed.

Lemma keeps_pool_get timeout : keeps (pool_get timeout).
Proof. apply keeps_on_pool, bounded_get. Qed.

Lemma keeps_pool_put_nowait item : keeps (pool_put_nowait item).
Proof. apply keeps_on_pool, bounded_put_nowait. Qed.

Lemma keeps_pool_put item : keeps (pool_put item).
Proof. apply keeps_on_pool, bounded_put. Qed.

#[local] Hint Resolve keeps_pymysql_connect keeps_conn_cursor keeps_cursor_execute
  keeps_cursor_fetchall keeps_cursor_close keeps_conn_close keeps_pool_get
  keeps_pool_put_nowait keeps_pool_put : keeps.

Lemma keeps_connect c d r : keeps (connect drv c d r).
Proof. unfold connect. repeat keeps_step. Qed.

Lemma keeps_pool_put_connection c ty : keeps (pool_put_connection c ty).
Proof. unfold pool_put_connection. repeat keeps_step. Qed.

#[local] Hint Resolve keeps_connect keeps_pool_put_connection : keeps.

Lemma keeps_execute_query c q a d ro em :
  keeps (execute_query drv c q a d ro em).
Proof. unfold execute_query, with_cursor. repeat keeps_step. Qed.

Lemma keeps_execute_query_multiplex c q a d ro em :
  keeps (execute_query_multiplex drv c q a d ro em).
Proof. unfold execute_query_multiplex, with_cursor. repeat keeps_step. Qed.

Lemma keeps_for_range n body : keeps body -> keeps (for_range n body).
Proof.
  intros Hb. induction n as [|n IH]; simpl.
  - apply keeps_ret.
  - apply keeps_bind; [exact Hb|intros _; exact IH].
Qed.

Lemma keeps_create_pool : keeps (create_pool drv).
Proof.
  unfold create_pool.
  apply keeps_bind; [auto with keeps|intros _].
  apply keeps_bind; [auto with keeps|intros n].
  apply keeps_bind; [|intros _; repeat keeps_step].
  apply keeps_for_range. repeat keeps_step.
Qed.

Lemma keeps_pool_get_connection_depth depth timeout retry_num :
  keeps (pool_get_connection_depth drv depth timeout retry_num).
Proof.
  revert timeout retry_num.
  induction depth as [|d IH]; intros timeout retry_num; simpl;
    unfold pool_get_connection_body; repeat keeps_step.
  intros w Hw; exact Hw.
Qed.

Lemma keeps_pool_get_connection timeout retry_num :
  keeps (pool_get_connection drv timeout retry_num).
Proof. apply keeps_pool_get_connection_depth. Qed.

Lemma keeps_db_close c : keeps (db_close c).
Proof. unfold db_close. repeat keeps_step. Qed.

Lemma step_keeps w m : pool_inv w -> pool_inv (step drv w m).
Proof.
  intros Hw. destruct m; simpl.
  - apply keeps_connect; exact Hw.
  - apply keeps_create_pool; exact Hw.
  - apply keeps_pool_get_connection; exact Hw.
  - apply keeps_pool_put_connection; exact Hw.
  - apply keeps_execute_query; exact Hw.
  - apply keeps_execute_query_multiplex; exact Hw.
  - apply keeps_db_close; exact Hw.
Qed.

Lemma run_keeps ms : forall w, pool_inv w -> pool_inv (run drv ms w).
Proof.
  induction ms as [|m ms IH]; intros w Hw; simpl; [exact Hw|].
  apply IH, step_keeps, Hw.
Qed.

End Invariant.

Lemma init_pool_inv cfg n h l :
  pool_inv (mkWorld (ImprovedDb_init cfg true n) h l).
Proof.
  eexists; simpl; split; [reflexivity|]. simpl. unfold qsize, HARD_LIMIT; simpl.
  split; [reflexivity|lia].
Qed.

(** C3. Starting from an object built with [pool=True] and any
    [pool_init_size], after any sequence of method calls ([create_pool],
    [pool_get_connection], [pool_put_connection] and the others, with any
    arguments and any driver behaviour) the pool store holds at most
    [HARD_LIMIT] = 100 items. *)
Theorem pool_never_exceeds_hard_limit :
  forall (drv : driver) (cfg : config) (init_size : Z)
         (h : list call) (l : list log_record) (ms : list method_call),
    (Z.of_nat (List.length
       (pool_items (run drv ms (mkWorld (ImprovedDb_init cfg true init_size) h l))))
     <= 100)%Z.
Proof.
  intros.
  destruct (run_keeps drv ms _ (init_pool_inv cfg init_size h l))
    as (pa & Hpa & _ & Hs).
  unfold pool_items. rewrite Hpa. exact Hs.
Qed.

(** ** Result shaping: [execute_query] *)

Lemma execute_query_returns drv connection q a dictcursor return_one exec_many w
    fetched :
  drv_execute drv (history_at_execute w connection dictcursor)
    (mkCursor connection dictcursor) exec_many q a = None ->
  drv_fetchall drv (history_at_fetch w connection dictcursor exec_many q a)
    (mkCursor connection dictcursor) = inr fetched ->
  fst (execute_query drv connection q a dictcursor return_one exec_many w)
  = Returned (shape return_one fetched).
Proof.
  intros Hex Hfetch.
  unfold history_at_fetch, history_at_execute in *.
  unfold execute_query, with_cursor, bind, finally, try_except, conn_cursor,
    cursor_execute, cursor_fetchall, cursor_close, ret.
  destruct exec_many; simpl in *; rewrite Hex; simpl; rewrite Hfetch;
    reflexivity.
Qed.

(** C7. When the statement runs without error, [cur.fetchall()] returns
    the rows and [return_one] is set, [execute_query] returns [None] if no
    row was fetched, and the first fetched row if there is at least one. *)
Theorem execute_query_return_one :
  forall drv connection q a dictcursor exec_many w fetched,
    drv_execute drv (history_at_execute w connection dictcursor)
      (mkCursor connection dictcursor) exec_many q a = None ->
    drv_fetchall drv (history_at_fetch w connection dictcursor exec_many q a)
      (mkCursor connection dictcursor) = inr fetched ->
    let result :=
      fst (execute_query drv connection q a dictcursor true exec_many w) in
    (fetched = [] -> result = Returned PyNone) /\
    (forall r rest, fetched = r :: rest -> result = Returned (OneRow r)).
Proof.
  intros drv connection q a dictcursor exec_many w fetched Hex Hfetch result.
  subst result. rewrite (execute_query_returns _ _ _ _ _ _ _ _ _ Hex Hfetch).
  split.
  - intros ->. reflexivity.
  - intros r rest ->. reflexivity.
Qed.

(** C9. When the statement runs without error, [cur.fetchall()] returns
    the rows and [return_one] is not set, [execute_query] returns the fetched
    sequence itself.  For zero rows that is the empty sequence, where the
    same call with [return_one] set returns [None]: the two modes answer an
    empty result with different values, and neither with an error. *)
Theorem execute_query_all_rows_empty :
  forall drv connection q a dictcursor exec_many w fetched,
    drv_execute drv (history_at_execute w connection dictcursor)
      (mkCursor connection dictcursor) exec_many q a = None ->
    drv_fetchall drv (history_at_fetch w connection dictcursor exec_many q a)
      (mkCursor connection dictcursor) = inr fetched ->
    let all_rows :=
      fst (execute_query drv connection q a dictcursor false exec_many w) in
    let one_row :=
      fst (execute_query drv connection q a dictcursor true exec_many w) in
    all_rows = Returned (Rows fetched) /\
    (fetched = [] ->
     all_rows = Returned (Rows []) /\
     one_row = Returned PyNone /\
     all_rows <> one_row).
Proof.
  intros drv connection q a dictcursor exec_many w fetched Hex Hfetch
    all_rows one_row.
  subst all_rows one_row.
  rewrite !(execute_query_returns _ _ _ _ _ _ _ _ _ Hex Hfetch).
  split; [reflexivity|].
  intros ->. split; [reflexivity|]. split; [reflexivity|discriminate].
Qed.

(** ** The factory: [connect] *)

(** C8. [connect] with [recreate=True] and with [recreate=False] end the
    same way: the same value returned or the same exception raised, the same
    driver calls made, the same object state.  Only the log can differ. *)
Theorem connect_recreate_only_logs :
  forall drv cursor dictcursor w,
    let with_flag := connect drv cursor dictcursor true w in
    let without_flag := connect drv cursor dictcursor false w in
    fst with_flag = fst without_flag /\
    self (snd with_flag) = self (snd without_flag) /\
    calls (snd with_flag) = calls (snd without_flag).
Proof.
  intros drv cursor dictcursor w.
  unfold connect, try_except, bind, pymysql_connect, conn_cursor, logger, ret, raise.
  destruct (drv_connect drv (calls w) (db_config (self w))) as [e|];
    destruct cursor; simpl; auto.
Qed.

(** ** Release: [pool_put_connection] *)

Lemma pool_put_connection_full connection conn_type w pa :
  pooled (self w) = Some pa ->
  Queue_full (pool pa) = true ->
  pool_put_connection connection conn_type w
  = (Returned tt,
     mkWorld (self w) (calls w)
       (log w ++ [mkLog WARNING
                    (if String.eqb conn_type "new"
                     then "can't put new connection to pool"
                     else "can't put old connection back to pool") NoArg])).
Proof.
  intros Hpa Hfull.
  unfold pool_put_connection, try_except, bind, logger, pool_put_nowait,
    on_pool, bind, self_pool, Queue_put_nowait.
  cbn. rewrite Hpa, Hfull. cbn.
  destruct (String.eqb conn_type "new"); reflexivity.
Qed.

(** ** Acquisition: [pool_get_connection] *)

Lemma store_empty_world w :
  store_empty w ->
  exists cfg hl n ms h l,
    w = mkWorld (mkImprovedDb cfg (Some (mkPoolAttrs hl n (mkQueue ms [])))) h l.
Proof.
  intros (pa & Hpa & Hq).
  destruct w as [[cfg p] h l]; simpl in *. subst p.
  destruct pa as [hl n [ms items]]; simpl in *. subst items.
  exists cfg, hl, n, ms, h, l. reflexivity.
Qed.

(** An item is waiting: it is handed over, whatever [retry_num]. *)
Lemma pool_get_connection_hit drv t retry_num w pa item rest :
  pooled (self w) = Some pa ->
  queue (pool pa) = item :: rest ->
  (0 <= t)%Q ->
  pool_get_connection drv (Some t) retry_num w
  = (Returned (Some item), set_pool (mkQueue (maxsize (pool pa)) rest) w).
Proof.
  intros Hpa Hq Ht.
  rewrite pool_get_connection_eq.
  unfold pool_get_connection_body, try_except, bind, pool_get, on_pool, bind,
    self_pool, Queue_get, logger.
  rewrite Hpa, Hq, (valid_timeout t Ht). reflexivity.
Qed.

Ltac run_acquire :=
  rewrite pool_get_connection_eq;
  unfold pool_get_connection_body, try_except, bind, pool_get, on_pool, bind,
    self_pool, Queue_get, connect, try_except, bind, pymysql_connect,
    pool_put_connection, try_except, bind, logger, pool_put_nowait, on_pool,
    bind, self_pool, Queue_put_nowait;
  cbn.

(** C4. With an empty store, a timeout that can expire and a factory that
    succeeds, [pool_get_connection(timeout, retry_num=1)] returns a
    connection, the one just created, and [pymysql.connect] was invoked
    exactly once on the way. *)
Theorem acquire_empty_one_retry :
  forall drv t w,
    store_empty w ->
    (0 <= t)%Q ->
    drv_connect drv (calls w) (db_config (self w)) = None ->
    exists w',
      pool_get_connection drv (Some t) 1 w
      = (Returned (Some (ConnObj (connect_count (calls w)))), w') /\
      calls w' = calls w ++ [CallConnect (db_config (self w))] /\
      connect_count (calls w') = S (connect_count (calls w)) /\
      pool_items w' = [].
Proof.
  intros drv t w Hw Ht Hc.
  destruct (store_empty_world w Hw) as (cfg & hl & n & ms & h & l & ->).
  simpl in Hc. run_acquire.
  rewrite (valid_timeout t Ht). cbn. rewrite Hc. cbn.
  rewrite Queue_full_empty. cbn.
  unfold pool_get_connection_body, try_except, bind, pool_get, on_pool, bind,
    self_pool, Queue_get, logger. cbn.
  rewrite (valid_timeout t Ht). cbn.
  eexists. split; [reflexivity|]. cbn.
  split; [reflexivity|]. split; [|reflexivity].
  unfold connect_count. rewrite filter_app, length_app. simpl. lia.
Qed.

(** C5. With an empty store and a timeout that can expire, an exception
    raised by [pymysql.connect] during replenishment comes out of
    [pool_get_connection] as it is, whatever [retry_num]; the factory was
    invoked once, so nothing was retried, and the store is still empty. *)
Theorem acquire_factory_error_propagates :
  forall drv t retry_num w e,
    store_empty w ->
    (0 <= t)%Q ->
    drv_connect drv (calls w) (db_config (self w)) = Some e ->
    exists w',
      pool_get_connection drv (Some t) retry_num w = (Raised e, w') /\
      calls w' = calls w ++ [CallConnect (db_config (self w))] /\
      pool_items w' = [].
Proof.
  intros drv t retry_num w e Hw Ht Hc.
  destruct (store_empty_world w Hw) as (cfg & hl & n & ms & h & l & ->).
  simpl in Hc. run_acquire.
  rewrite (valid_timeout t Ht). cbn. rewrite Hc. cbn.
  eexists. split; [reflexivity|]. cbn. split; reflexivity.
Qed.

(** C6. With an empty store, a timeout that can expire, a factory that
    succeeds and no retry left ([retry_num] not above 0),
    [pool_get_connection] returns [None]: a value, not an exception and not
    a connection. *)
Theorem acquire_exhausted_returns_none :
  forall drv t retry_num w,
    store_empty w ->
    (0 <= t)%Q ->
    drv_connect drv (calls w) (db_config (self w)) = None ->
    (retry_num <= 0)%Z ->
    fst (pool_get_connection drv (Some t) retry_num w) = Returned None.
Proof.
  intros drv t retry_num w Hw Ht Hc Hr.
  destruct (store_empty_world w Hw) as (cfg & hl & n & ms & h & l & ->).
  simpl in Hc. run_acquire.
  rewrite (valid_timeout t Ht). cbn. rewrite Hc. cbn.
  rewrite Queue_full_empty. cbn.
  replace (0 <? retry_num)%Z with false by (symmetry; apply Z.ltb_ge; exact Hr).
  reflexivity.
Qed.

(** C10. Whenever [pool_get_connection] ends with [None], the store it
    found empty is not empty any more: the factory succeeded, and the
    connection it created sits in the store although the caller got none. *)
Theorem exhaustion_leaves_new_connection :
  forall drv timeout retry_num w w',
    pool_get_connection drv timeout retry_num w = (Returned None, w') ->
    store_empty w /\
    drv_connect drv (calls w) (db_config (self w)) = None /\
    calls w' = calls w ++ [CallConnect (db_config (self w))] /\
    pool_items w' = [ConnObj (connect_count (calls w))] /\
    pool_items w' <> pool_items w.
Proof.
  intros drv timeout retry_num w w' H.
  destruct w as [[cfg [[hl n [ms items]]|]] h l].
  2:{ revert H. run_acquire. discriminate. }
  destruct timeout as [t|].
  2:{ revert H. run_acquire. destruct items; cbn; discriminate. }
  destruct (Qle_bool 0 t) eqn:Ht.
  2:{ revert H. run_acquire. rewrite Ht. cbn. discriminate. }
  destruct items as [|item rest].
  2:{ revert H. run_acquire. rewrite Ht. cbn. discriminate. }
  revert H. run_acquire. rewrite Ht. cbn.
  destruct (drv_connect drv h cfg) as [e|] eqn:Hc; cbn; [discriminate|].
  rewrite Queue_full_empty. cbn.
  destruct (0 <? retry_num)%Z eqn:Hr; cbn.
  - apply Qle_bool_iff in Ht.
    erewrite pool_get_connection_hit; [discriminate|reflexivity|reflexivity|exact Ht].
  - intros [= <-]. cbn.
    split; [eexists; split; reflexivity|].
    repeat split; discriminate.
Qed.

(** ** Statement errors in [execute_query_multiplex] *)

(** C1, as the code has it. When [cur.execute] or [cur.executemany]
    raises a [ProgrammingError], [InternalError], [IntegrityError] or
    [NotSupportedError] on a pooled object, [execute_query_multiplex] closes
    the cursor, passes the connection to [pool_put_connection] (so it goes
    back into the store, or is left out with the warning for an old
    connection when the store is full), calls no [close] on the connection,
    and raises the same exception. *)
Theorem statement_error_releases_and_reraises :
  forall drv connection q a dictcursor return_one exec_many w pa e,
    pooled (self w) = Some pa ->
    drv_execute drv (history_at_execute w connection dictcursor)
      (mkCursor connection dictcursor) exec_many q a = Some e ->
    is_statement_error e = true ->
    exists w',
      execute_query_multiplex drv connection q a dictcursor return_one
        exec_many w = (Raised e, w') /\
      calls w' = calls w ++
                 [CallCursor connection dictcursor;
                  CallExecute (mkCursor connection dictcursor) exec_many q a;
                  CallCursorClose (mkCursor connection dictcursor);
                  CallCursorClose (mkCursor connection dictcursor)] /\
      conn_closed connection (calls w') = conn_closed connection (calls w) /\
      pool_items w' = (if Queue_full (pool pa)
                       then pool_items w
                       else pool_items w ++ [ConnObj connection]) /\
      log w' = (if Queue_full (pool pa)
                then log w ++
                     [mkLog WARNING "can't put old connection back to pool" NoArg]
                else log w).
Proof.
  intros drv connection q a dictcursor return_one exec_many w pa e Hpa Hex He.
  destruct w as [[cfg p] h l]; simpl in Hpa; subst p.
  unfold history_at_execute in Hex; simpl in Hex.
  unfold execute_query_multiplex, with_cursor, finally, try_except, bind,
    conn_cursor, cursor_execute, cursor_close, pool_put_connection, try_except,
    bind, logger, pool_put_nowait, on_pool, bind, self_pool, Queue_put_nowait.
  destruct exec_many; cbn; rewrite Hex; cbn; rewrite He; cbn;
    destruct (Queue_full (pool pa)); cbn;
    (eexists; split; [reflexivity|]; cbn; rewrite <- !app_assoc; cbn;
     split; [reflexivity|]; split; [|split; reflexivity];
     rewrite existsb_app; cbn; apply orb_false_r).
Qed.

(** C1, as the specification words it, fails: after a [ProgrammingError] on
    connection 0, borrowed from a pool of two, the connection is back in the
    store and no [close] was called on it. *)
Lemma statement_error_connection_kept :
  let drv := fixed_driver None (Some syntax_error) [] in
  let w := borrowed_world drv in
  let r := execute_query_multiplex drv 0 "SELEC 1" [] false false false w in
  pool_items w = [ConnObj 1] /\
  fst r = Raised syntax_error /\
  pool_items (snd r) = [ConnObj 1; ConnObj 0] /\
  conn_closed 0 (calls (snd r)) = false /\
  ~ discards_on_statement_error drv 0 "SELEC 1" [] false false false w.
Proof.
  cbv zeta.
  split; [reflexivity|]. split; [reflexivity|]. split; [reflexivity|].
  split; [reflexivity|].
  intros H.
  destruct (H syntax_error eq_refl eq_refl) as (_ & Hclosed & _).
  vm_compute in Hclosed. discriminate.
Qed.

Lemma statement_error_releases_and_reraises_witness :
  let drv := fixed_driver None (Some syntax_error) [] in
  let w := borrowed_world drv in
  exists w',
    execute_query_multiplex drv 0 "SELEC 1" [] false false false w
    = (Raised syntax_error, w') /\
    conn_closed 0 (calls w') = false /\
    pool_items w' = [ConnObj 1; ConnObj 0].
Proof.
  cbv zeta.
  destruct (statement_error_releases_and_reraises
              (fixed_driver None (Some syntax_error) []) 0 "SELEC 1" []
              false false false
              (borrowed_world (fixed_driver None (Some syntax_error) []))
              (mkPoolAttrs 100 2 (mkQueue 100 [ConnObj 1]))
              syntax_error eq_refl eq_refl eq_refl)
    as (w' & Hrun & _ & Hclosed & Hitems & _).
  exists w'. split; [exact Hrun|]. split; [exact Hclosed|exact Hitems].
Defined.

(** ** Releasing into a full store *)

(** C2, as the code has it. Releasing into a store that holds
    [HARD_LIMIT] items returns normally; the store and the object are left
    as they were, no driver call is made (in particular no [close] on the
    connection), and one warning is logged whose text depends on
    [conn_type]. *)
Theorem release_on_full_drops :
  forall connection conn_type w,
    store_full w ->
    exists w',
      pool_put_connection connection conn_type w = (Returned tt, w') /\
      self w' = self w /\
      pool_items w' = pool_items w /\
      calls w' = calls w /\
      log w' = log w ++
               [mkLog WARNING
                  (if String.eqb conn_type "new"
                   then "can't put new connection to pool"
                   else "can't put old connection back to pool") NoArg].
Proof.
  intros connection conn_type w (pa & Hpa & Hm & Hs).
  rewrite (pool_put_connection_full connection conn_type w pa Hpa
             (Queue_full_at_limit _ Hm Hs)).
  eexists. split; [reflexivity|]. repeat split.
Qed.

(** C2, as the specification words it, fails: a connection released into a
    store of 100 is dropped without [close] being called on it. *)
Lemma full_release_connection_not_closed :
  let drv := fixed_driver None None [] in
  let w := filled_world drv 100 in
  let r := pool_put_connection (ConnObj 100) "old" w in
  List.length (pool_items w) = 100 /\
  fst r = Returned tt /\
  List.length (pool_items (snd r)) = 100 /\
  conn_closed 100 (calls (snd r)) = false /\
  ~ closes_on_full_release 100 "old" w.
Proof.
  cbv zeta.
  assert (store_full (filled_world (fixed_driver None None []) 100)) as Hfull.
  { eexists. split; [vm_compute; reflexivity|]. split; reflexivity. }
  split; [vm_compute; reflexivity|]. split; [vm_compute; reflexivity|].
  split; [vm_compute; reflexivity|]. split; [vm_compute; reflexivity|].
  intros H. destruct (H Hfull) as (_ & _ & Hclosed).
  vm_compute in Hclosed. discriminate.
Qed.

Lemma release_on_full_drops_witness :
  let w := filled_world (fixed_driver None None []) 100 in
  store_full w /\
  exists w',
    pool_put_connection (ConnObj 100) "new" w = (Returned tt, w') /\
    pool_items w' = pool_items w /\
    calls w' = calls w.
Proof.
  cbv zeta.
  assert (store_full (filled_world (fixed_driver None None []) 100)) as Hfull.
  { eexists. split; [vm_compute; reflexivity|]. split; reflexivity. }
  split; [exact Hfull|].
  destruct (release_on_full_drops (ConnObj 100) "new" _ Hfull)
    as (w' & Hrun & _ & Hitems & Hcalls & _).
  exists w'. split; [exact Hrun|]. split; [exact Hitems|exact Hcalls].
Defined.

(** ** The theorems at work on sample runs *)

Lemma sample_timeout : (0 <= 1)%Q.
Proof. apply Qle_bool_iff. reflexivity. Defined.

Lemma fresh_world_empty init_size : store_empty (fresh_world init_size).
Proof. eexists. split; reflexivity. Defined.

Lemma acquire_empty_one_retry_witness :
  let drv := fixed_driver None None [] in
  let w := fresh_world 10 in
  store_empty w /\
  exists w',
    pool_get_connection drv (Some 1%Q) 1 w = (Returned (Some (ConnObj 0)), w') /\
    connect_count (calls w') = 1 /\
    pool_items w' = [].
Proof.
  cbv zeta. split; [apply fresh_world_empty|].
  destruct (acquire_empty_one_retry (fixed_driver None None []) 1%Q
              (fresh_world 10) (fresh_world_empty 10) sample_timeout eq_refl)
    as (w' & Hrun & _ & Hcount & Hitems).
  exists w'. split; [exact Hrun|]. split; [exact Hcount|exact Hitems].
Defined.

Lemma acquire_factory_error_propagates_witness :
  let drv := fixed_driver (Some server_down) None [] in
  let w := fresh_world 10 in
  store_empty w /\
  exists w',
    pool_get_connection drv (Some 1%Q) 5 w = (Raised server_down, w') /\
    calls w' = [CallConnect sample_config] /\
    pool_items w' = [].
Proof.
  cbv zeta. split; [apply fresh_world_empty|].
  exact (acquire_factory_error_propagates
           (fixed_driver (Some server_down) None []) 1%Q 5 (fresh_world 10)
           server_down (fresh_world_empty 10) sample_timeout eq_refl).
Defined.

Lemma acquire_exhausted_returns_none_witness :
  let drv := fixed_driver None None [] in
  let w := fresh_world 10 in
  store_empty w /\
  fst (pool_get_connection drv (Some 1%Q) 0 w) = Returned None.
Proof.
  cbv zeta. split; [apply fresh_world_empty|].
  apply (acquire_exhausted_returns_none (fixed_driver None None []) 1%Q 0
           (fresh_world 10) (fresh_world_empty 10) sample_timeout eq_refl).
  apply Z.le_refl.
Defined.

Lemma exhaustion_leaves_new_connection_witness :
  let drv := fixed_driver None None [] in
  let w := fresh_world 10 in
  let r := pool_get_connection drv (Some 1%Q) 0 w in
  fst r = Returned None /\
  pool_items w = [] /\
  pool_items (snd r) = [ConnObj 0].
Proof.
  cbv zeta. split; [reflexivity|]. split; [reflexivity|].
  apply (exhaustion_leaves_new_connection (fixed_driver None None [])
           (Some 1%Q) 0 (fresh_world 10)
           (snd (pool_get_connection (fixed_driver None None []) (Some 1%Q) 0
                   (fresh_world 10)))).
  reflexivity.
Defined.

Lemma execute_query_return_one_witness :
  let w := borrowed_world (fixed_driver None None two_rows) in
  fst (execute_query (fixed_driver None None two_rows) 0 "SELECT id, name FROM t"
         [] false true false w)
  = Returned (OneRow (TupleRow [SqlInt 1; SqlStr "a"])) /\
  fst (execute_query (fixed_driver None None []) 0 "SELECT id, name FROM t"
         [] false true false w)
  = Returned PyNone.
Proof.
  cbv zeta. split.
  - exact (proj2 (execute_query_return_one (fixed_driver None None two_rows) 0
                    "SELECT id, name FROM t" [] false false
                    (borrowed_world (fixed_driver None None two_rows))
                    two_rows eq_refl eq_refl)
             _ _ eq_refl).
  - exact (proj1 (execute_query_return_one (fixed_driver None None []) 0
                    "SELECT id, name FROM t" [] false false
                    (borrowed_world (fixed_driver None None two_rows))
                    [] eq_refl eq_refl)
             eq_refl).
Defined.

Lemma execute_query_all_rows_empty_witness :
  let drv := fixed_driver None None [] in
  fst (execute_query drv 0 "SELECT id, name FROM t" [] false false false
         (borrowed_world drv))
  = Returned (Rows []) /\
  fst (execute_query drv 0 "SELECT id, name FROM t" [] false true false
         (borrowed_world drv))
  = Returned PyNone.
Proof.
  cbv zeta.
  destruct (proj2 (execute_query_all_rows_empty (fixed_driver None None []) 0
                     "SELECT id, name FROM t" [] false false
                     (borrowed_world (fixed_driver None None []))
                     [] eq_refl eq_refl)
              eq_refl) as (Hall & Hone & _).
  split; [exact Hall|exact Hone].
Defined.

(** * Further properties *)

(** ** Filling the store: [create_pool] *)

Lemma for_range_app a b body w :
  for_range (a + b) body w = bind (for_range a body) (fun _ => for_range b body) w.
Proof.
  revert w. induction a as [|a IH]; intros w; simpl.
  - reflexivity.
  - unfold bind. destruct (body w) as [[u|e|] w1]; try reflexivity.
    rewrite IH. reflexivity.
Qed.

Lemma Queue_not_full_below items :
  (List.length items < 100)%nat -> Queue_full (mkQueue 100 items) = false.
Proof.
  intros H. unfold Queue_full, qsize; simpl. apply Z.leb_gt. lia.
Qed.


Lemma connect_count_app h k :
  connect_count (h ++ repeat (CallConnect k) 1) = S (connect_count h).
Proof.
  unfold connect_count. rewrite filter_app, length_app. simpl. lia.
Qed.

Lemma repeat_snoc {A} (x : A) n : repeat x n ++ [x] = x :: repeat x n.
Proof.
  induction n as [|n IH]; simpl; [reflexivity|]. rewrite IH. reflexivity.
Qed.

(** One round of the loop of [create_pool]. *)
Lemma fill_step drv cfg hl n items h l :
  drv_connect drv h cfg = None ->
  (List.length items < 100)%nat ->
  bind (connect drv false false false) (fun conn => pool_put conn)
    (mkWorld (mkImprovedDb cfg (Some (mkPoolAttrs hl n (mkQueue 100 items)))) h l)
  = (Returned tt,
     mkWorld
       (mkImprovedDb cfg
          (Some (mkPoolAttrs hl n
             (mkQueue 100 (items ++ [ConnObj (connect_count h)])))))
       (h ++ [CallConnect cfg]) l).
Proof.
  intros H0 Hroom.
  unfold bind, connect, try_except, bind, pymysql_connect, logger,
    pool_put, on_pool, bind, self_pool, Queue_put.
  cbn -[Queue_full]. rewrite H0. cbn -[Queue_full].
  rewrite Queue_not_full_below by lia. reflexivity.
Qed.

Lemma fill_step_fails drv cfg hl n items h l e :
  drv_connect drv h cfg = Some e ->
  bind (connect drv false false false) (fun conn => pool_put conn)
    (mkWorld (mkImprovedDb cfg (Some (mkPoolAttrs hl n (mkQueue 100 items)))) h l)
  = (Raised e,
     mkWorld
       (mkImprovedDb cfg (Some (mkPoolAttrs hl n (mkQueue 100 items))))
       (h ++ [CallConnect cfg])
       (l ++ [mkLog ERROR "create connection error: {}" (ArgExn e)])).
Proof.
  intros H0.
  unfold bind, connect, try_except, bind, pymysql_connect, logger.
  cbn. rewrite H0. reflexivity.
Qed.


(** [k] rounds of the loop of [create_pool], with a factory that works and
    room for [k] more items. *)
Lemma fill_loop drv cfg hl n k :
  forall items h l,
    (List.length items + k <= 100)%nat ->
    (forall i, (i < k)%nat ->
       drv_connect drv (h ++ repeat (CallConnect cfg) i) cfg = None) ->
    for_range k (bind (connect drv false false false) (fun conn => pool_put conn))
      (mkWorld (mkImprovedDb cfg (Some (mkPoolAttrs hl n (mkQueue 100 items)))) h l)
    = (Returned tt,
       mkWorld
         (mkImprovedDb cfg
            (Some (mkPoolAttrs hl n
               (mkQueue 100 (items ++ map ConnObj (seq (connect_count h) k))))))
         (h ++ repeat (CallConnect cfg) k) l).
Proof.
  induction k as [|k IH]; intros items h l Hroom Hdrv.
  - simpl. rewrite !app_nil_r. reflexivity.
  - pose proof (Hdrv 0%nat ltac:(lia)) as H0. simpl in H0. rewrite app_nil_r in H0.
    change (for_range (S k) ?b) with (bind b (fun _ => for_range k b)).
    unfold bind at 1. rewrite fill_step by (trivial; lia).
    rewrite IH.
    + rewrite (connect_count_app h cfg : connect_count (h ++ [CallConnect cfg]) = _).
      simpl. rewrite <- !app_assoc. reflexivity.
    + rewrite length_app. simpl. lia.
    + intros i Hi. rewrite <- app_assoc. apply (Hdrv (S i)). lia.
Qed.

Lemma create_pool_loop drv w pa :
  pooled (self w) = Some pa ->
  create_pool drv w
  = bind
      (for_range (Z.to_nat (pool_init_size pa))
         (bind (connect drv false false false) (fun conn => pool_put conn)))
      (fun _ => bind self_pool
                  (fun q => logger DEBUG "pool object: {}" (ArgQueue (queue q))))
      w.
Proof.
  intros Hpa. unfold create_pool.
  unfold bind at 1. unfold logger at 1.
  change (levelno logger_level <=? levelno DEBUG)%Z with false. cbv iota beta.
  unfold bind at 1. unfold self_pool_init_size. rewrite Hpa. reflexivity.
Qed.

Lemma pooled_world w pa :
  pooled (self w) = Some pa ->
  maxsize (pool pa) = HARD_LIMIT ->
  w = mkWorld
        (mkImprovedDb (db_config (self w))
           (Some (mkPoolAttrs (POOL_HARD_LIMIT pa) (pool_init_size pa)
                    (mkQueue 100 (queue (pool pa))))))
        (calls w) (log w).
Proof.
  intros Hpa Hm. destruct w as [[cfg p] h l]; simpl in *. subst p.
  destruct pa as [hl n [ms items]]; simpl in *. rewrite Hm. reflexivity.
Qed.

(** X1. [create_pool] on a pooled object whose store has room for
    [pool_init_size] more items, with a factory that works that many times:
    it returns, the store gains the new connections at its tail in the order
    they were created, [pymysql.connect] was invoked once per connection,
    and nothing is logged. *)
Theorem create_pool_fills :
  forall drv w pa,
    pooled (self w) = Some pa ->
    maxsize (pool pa) = HARD_LIMIT ->
    let n := Z.to_nat (pool_init_size pa) in
    (List.length (queue (pool pa)) + n <= 100)%nat ->
    connects_next drv w n ->
    exists w',
      create_pool drv w = (Returned tt, w') /\
      pool_items w' = pool_items w ++ map ConnObj (seq (connect_count (calls w)) n) /\
      calls w' = after_connects w n /\
      log w' = log w.
Proof.
  intros drv w pa Hpa Hm n Hroom Hdrv.
  rewrite (create_pool_loop drv w pa Hpa).
  unfold pool_items, after_connects. rewrite Hpa.
  revert Hdrv. unfold connects_next, after_connects.
  rewrite (pooled_world w pa Hpa Hm). cbn [self calls log db_config].
  intros Hdrv. fold n.
  unfold bind at 1. rewrite fill_loop by assumption.
  eexists. split; [reflexivity|]. cbn. repeat split.
Qed.

(** After [k] good rounds the loop is at round [k + 1]. *)
Lemma fill_loop_then drv cfg hl n k rest items h l :
  (List.length items + k <= 100)%nat ->
  (forall i, (i < k)%nat ->
     drv_connect drv (h ++ repeat (CallConnect cfg) i) cfg = None) ->
  for_range (k + S rest)
    (bind (connect drv false false false) (fun conn => pool_put conn))
    (mkWorld (mkImprovedDb cfg (Some (mkPoolAttrs hl n (mkQueue 100 items)))) h l)
  = bind (bind (connect drv false false false) (fun conn => pool_put conn))
      (fun _ => for_range rest
                  (bind (connect drv false false false) (fun conn => pool_put conn)))
      (mkWorld
         (mkImprovedDb cfg
            (Some (mkPoolAttrs hl n
               (mkQueue 100 (items ++ map ConnObj (seq (connect_count h) k))))))
         (h ++ repeat (CallConnect cfg) k) l).
Proof.
  intros Hroom Hdrv. rewrite for_range_app.
  unfold bind at 1. rewrite fill_loop by assumption. reflexivity.
Qed.


(** X3. [create_pool] stops at the first connection the factory cannot
    make: the exception comes out as it is, the connections made before it
    stay in the store, no further connection is attempted, and one error
    record is logged. *)
Theorem create_pool_fails_fast :
  forall drv w pa j e,
    pooled (self w) = Some pa ->
    maxsize (pool pa) = HARD_LIMIT ->
    (j < Z.to_nat (pool_init_size pa))%nat ->
    (List.length (queue (pool pa)) + j <= 100)%nat ->
    connects_next drv w j ->
    drv_connect drv (after_connects w j) (db_config (self w)) = Some e ->
    exists w',
      create_pool drv w = (Raised e, w') /\
      pool_items w' = pool_items w ++ map ConnObj (seq (connect_count (calls w)) j) /\
      calls w' = after_connects w (S j) /\
      log w' = log w ++ [mkLog ERROR "create connection error: {}" (ArgExn e)].
Proof.
  intros drv w pa j e Hpa Hm Hj Hroom Hdrv He.
  rewrite (create_pool_loop drv w pa Hpa).
  unfold pool_items. rewrite Hpa.
  revert Hdrv He. unfold connects_next, after_connects.
  rewrite (pooled_world w pa Hpa Hm). cbn [self calls log db_config].
  intros Hdrv He.
  replace (Z.to_nat (pool_init_size pa))
    with (j + S (Z.to_nat (pool_init_size pa) - j - 1))%nat by lia.
  unfold bind at 1.
  rewrite fill_loop_then by assumption.
  unfold bind at 1.
  rewrite (fill_step_fails _ _ _ _ _ _ _ e He).
  eexists. split; [reflexivity|]. cbn. split; [reflexivity|]. split; [|reflexivity].
  rewrite <- app_assoc, repeat_snoc. reflexivity.
Qed.

(** ** What a call never does *)

Section Respects.

Variable R : world -> world -> Prop.
Hypothesis R_refl : forall w, R w w.
Hypothesis R_trans : forall w1 w2 w3, R w1 w2 -> R w2 w3 -> R w1 w3.

Lemma respects_ret {A} (a : A) : respects R (ret a).
Proof. intros w. apply R_refl. Qed.

Lemma respects_raise {A} (e : exn) : respects R (@raise A e).
Proof. intros w. apply R_refl. Qed.

Lemma respects_bind {A B} (m : M A) (k : A -> M B) :
  respects R m -> (forall a, respects R (k a)) -> respects R (bind m k).
Proof.
  intros Hm Hk w. specialize (Hm w). unfold bind.
  destruct (m w) as [[a|e|] w1]; simpl in *; trivial.
  eapply R_trans; [exact Hm|apply Hk].
Qed.

Lemma respects_try_except {A} (m : M A) (h : exn -> M A) :
  respects R m -> (forall e, respects R (h e)) -> respects R (try_except m h).
Proof.
  intros Hm Hh w. specialize (Hm w). unfold try_except.
  destruct (m w) as [[a|e|] w1]; simpl in *; trivial.
  eapply R_trans; [exact Hm|apply Hh].
Qed.

Lemma respects_finally {A} (m : M A) (f : M unit) :
  respects R m -> respects R f -> respects R (finally m f).
Proof.
  intros Hm Hf w. specialize (Hm w). unfold finally.
  destruct (m w) as [[a|e|] w1]; simpl in *; trivial;
    specialize (Hf w1); destruct (f w1) as [[u|e'|] w2]; simpl in *;
    eapply R_trans; eassumption.
Qed.

Lemma respects_for_range n body :
  respects R body -> respects R (for_range n body).
Proof.
  intros Hb. induction n as [|n IH]; simpl.
  - apply respects_ret.
  - apply respects_bind; [exact Hb|intros _; exact IH].
Qed.

End Respects.

Lemma same_closed_refl w : same_closed w w.
Proof. intros c. reflexivity. Qed.

Lemma same_closed_trans w1 w2 w3 :
  same_closed w1 w2 -> same_closed w2 w3 -> same_closed w1 w3.
Proof. intros H12 H23 c. rewrite H23. apply H12. Qed.

Lemma same_self_refl w : same_self w w.
Proof. reflexivity. Qed.

Lemma same_self_trans w1 w2 w3 :
  same_self w1 w2 -> same_self w2 w3 -> same_self w1 w3.
Proof. unfold same_self. intros H12 H23. rewrite H23. exact H12. Qed.

Lemma same_closed_calls w w' : calls w' = calls w -> same_closed w w'.
Proof. intros H c. rewrite H. reflexivity. Qed.

Lemma calls_set_pool q w : calls (set_pool q w) = calls w.
Proof. unfold set_pool. destruct (pooled (self w)); reflexivity. Qed.

Lemma same_closed_record k w :
  (forall c, closes c k = false) -> same_closed w (record_call k w).
Proof.
  intros Hk c. unfold conn_closed, record_call; simpl.
  rewrite existsb_app; simpl. rewrite Hk. rewrite !orb_false_r. reflexivity.
Qed.

Create HintDb respects.
#[local] Hint Resolve same_closed_refl same_self_refl : respects.
#[local] Hint Resolve respects_ret respects_raise : respects.

Ltac respects_step :=
  cbv beta;
  match goal with
  | |- respects _ (bind _ _) =>
      apply respects_bind; [eauto with respects| |intro]
  | |- respects _ (try_except _ _) =>
      apply respects_try_except; [eauto with respects| |intro]
  | |- respects _ (finally _ _) =>
      apply respects_finally; [eauto with respects| | ]
  | |- respects _ (if ?b then _ else _) => destruct b
  | |- respects _ _ => solve [eauto with respects]
  end.

Section Never.

Variable drv : driver.

(** *** No [close] but in [db_close] *)

Lemma unclosed_logger lvl text arg : respects same_closed (logger lvl text arg).
Proof.
  intros w. apply same_closed_calls. unfold logger. cbv beta. unfold snd.
  destruct (levelno logger_level <=? levelno lvl)%Z; reflexivity.
Qed.

Lemma unclosed_on_pool {A} (op : Queue -> outcome (A * Queue)) :
  respects same_closed (on_pool op).
Proof.
  intros w. apply same_closed_calls.
  unfold on_pool, bind, self_pool.
  destruct (pooled (self w)) as [pa|]; [|reflexivity].
  destruct (op (pool pa)) as [[a q']|e|]; simpl;
    [apply calls_set_pool|reflexivity|reflexivity].
Qed.

Lemma unclosed_self_pool : respects same_closed self_pool.
Proof.
  intros w. apply same_closed_calls. unfold self_pool.
  destruct (pooled (self w)); reflexivity.
Qed.

Lemma unclosed_self_pool_init_size : respects same_closed self_pool_init_size.
Proof.
  intros w. apply same_closed_calls. unfold self_pool_init_size.
  destruct (pooled (self w)); reflexivity.
Qed.

Lemma unclosed_pymysql_connect : respects same_closed (pymysql_connect drv).
Proof.
  intros w. unfold pymysql_connect.
  destruct (drv_connect drv (calls w) (db_config (self w)));
    apply same_closed_record; reflexivity.
Qed.

Lemma unclosed_conn_cursor c d : respects same_closed (conn_cursor c d).
Proof. intros w. apply same_closed_record; reflexivity. Qed.

Lemma unclosed_cursor_execute cur many q a :
  respects same_closed (cursor_execute drv cur many q a).
Proof.
  intros w. unfold cursor_execute.
  destruct (drv_execute drv (calls w) cur many q a);
    apply same_closed_record; reflexivity.
Qed.

Lemma unclosed_cursor_fetchall cur : respects same_closed (cursor_fetchall drv cur).
Proof.
  intros w. unfold cursor_fetchall.
  destruct (drv_fetchall drv (calls w) cur);
    apply same_closed_record; reflexivity.
Qed.

Lemma unclosed_cursor_close cur : respects same_closed (cursor_close cur).
Proof. intros w. apply same_closed_record; reflexivity. Qed.

Lemma unclosed_pool_get t : respects same_closed (pool_get t).
Proof. apply unclosed_on_pool. Qed.

Lemma unclosed_pool_put_nowait item : respects same_closed (pool_put_nowait item).
Proof. apply unclosed_on_pool. Qed.

Lemma unclosed_pool_put item : respects same_closed (pool_put item).
Proof. apply unclosed_on_pool. Qed.

#[local] Hint Resolve same_closed_trans unclosed_logger unclosed_self_pool
  unclosed_self_pool_init_size unclosed_pymysql_connect unclosed_conn_cursor
  unclosed_cursor_execute unclosed_cursor_fetchall unclosed_cursor_close
  unclosed_pool_get unclosed_pool_put_nowait unclosed_pool_put : respects.

Lemma unclosed_connect c d r : respects same_closed (connect drv c d r).
Proof. unfold connect. repeat respects_step. Qed.

Lemma unclosed_pool_put_connection c ty :
  respects same_closed (pool_put_connection c ty).
Proof. unfold pool_put_connection. repeat respects_step. Qed.

#[local] Hint Resolve unclosed_connect unclosed_pool_put_connection : respects.

Lemma unclosed_execute_query c q a d ro em :
  respects same_closed (execute_query drv c q a d ro em).
Proof. unfold execute_query, with_cursor. repeat respects_step. Qed.

Lemma unclosed_execute_query_multiplex c q a d ro em :
  respects same_closed (execute_query_multiplex drv c q a d ro em).
Proof. unfold execute_query_multiplex, with_cursor. repeat respects_step. Qed.

Lemma unclosed_create_pool : respects same_closed (create_pool drv).
Proof.
  unfold create_pool.
  apply respects_bind; [eauto with respects|eauto with respects|intros _].
  apply respects_bind; [eauto with respects|eauto with respects|intros n].
  apply respects_bind; [eauto with respects| |intros _; repeat respects_step].
  apply respects_for_range; [eauto with respects|eauto with respects|].
  repeat respects_step.
Qed.

Lemma unclosed_pool_get_connection_depth depth timeout retry_num :
  respects same_closed (pool_get_connection_depth drv depth timeout retry_num).
Proof.
  revert timeout retry_num.
  induction depth as [|d IH]; intros timeout retry_num; simpl;
    unfold pool_get_connection_body; repeat respects_step.
  intros w. apply same_closed_refl.
Qed.

Lemma step_unclosed w m : is_close m = false -> same_closed w (step drv w m).
Proof.
  destruct m; simpl; intros Hm; try discriminate.
  - apply unclosed_connect.
  - apply unclosed_create_pool.
  - apply unclosed_pool_get_connection_depth.
  - apply unclosed_pool_put_connection.
  - apply unclosed_execute_query.
  - apply unclosed_execute_query_multiplex.
Qed.

End Never.

(** X14. Only [db_close] closes connections: after any sequence of calls
    of the other methods, with any arguments and any driver behaviour,
    [close] has been called on exactly the connections it had been called on
    before. *)
Theorem only_db_close_closes :
  forall drv ms w c,
    forallb (fun m => negb (is_close m)) ms = true ->
    conn_closed c (calls (run drv ms w)) = conn_closed c (calls w).
Proof.
  intros drv ms. unfold run.
  induction ms as [|m ms IH]; intros w c Hms; simpl in *.
  - reflexivity.
  - apply andb_prop in Hms. destruct Hms as [Hm Hms].
    rewrite IH by exact Hms.
    apply step_unclosed. destruct (is_close m); [discriminate|reflexivity].
Qed.

(** *** The driver-only calls leave the object alone *)

Section Storeless.

Variable drv : driver.

Lemma selfsame_logger lvl text arg : respects same_self (logger lvl text arg).
Proof.
  intros w. unfold same_self, logger. cbv beta. unfold snd.
  destruct (levelno logger_level <=? levelno lvl)%Z; reflexivity.
Qed.

Lemma selfsame_pymysql_connect : respects same_self (pymysql_connect drv).
Proof.
  intros w. unfold same_self, pymysql_connect.
  destruct (drv_connect drv (calls w) (db_config (self w))); reflexivity.
Qed.

Lemma selfsame_conn_cursor c d : respects same_self (conn_cursor c d).
Proof. intros w. reflexivity. Qed.

Lemma selfsame_cursor_execute cur many q a :
  respects same_self (cursor_execute drv cur many q a).
Proof.
  intros w. unfold same_self, cursor_execute.
  destruct (drv_execute drv (calls w) cur many q a); reflexivity.
Qed.

Lemma selfsame_cursor_fetchall cur : respects same_self (cursor_fetchall drv cur).
Proof.
  intros w. unfold same_self, cursor_fetchall.
  destruct (drv_fetchall drv (calls w) cur); reflexivity.
Qed.

Lemma selfsame_cursor_close cur : respects same_self (cursor_close cur).
Proof. intros w. reflexivity. Qed.

Lemma selfsame_conn_close c : respects same_self (conn_close c).
Proof. intros w. reflexivity. Qed.

#[local] Hint Resolve same_self_trans selfsame_logger selfsame_pymysql_connect
  selfsame_conn_cursor selfsame_cursor_execute selfsame_cursor_fetchall
  selfsame_cursor_close selfsame_conn_close : respects.

Lemma selfsame_connect c d r : respects same_self (connect drv c d r).
Proof. unfold connect. repeat respects_step. Qed.

Lemma selfsame_execute_query c q a d ro em :
  respects same_self (execute_query drv c q a d ro em).
Proof. unfold execute_query, with_cursor. repeat respects_step. Qed.

Lemma selfsame_db_close c : respects same_self (db_close c).
Proof. unfold db_close. repeat respects_step. Qed.

Lemma step_selfsame w m : storeless m = true -> same_self w (step drv w m).
Proof.
  destruct m; simpl; intros Hm; try discriminate.
  - apply selfsame_connect.
  - apply selfsame_execute_query.
  - apply selfsame_db_close.
Qed.

End Storeless.

(** X11. [connect], [execute_query] and [db_close] never touch the object:
    after any sequence of such calls, whatever they return or raise, the
    configuration, the pool attributes and the store with its items are what
    they were. *)
Theorem driver_calls_leave_object :
  forall drv ms w,
    forallb storeless ms = true ->
    self (run drv ms w) = self w.
Proof.
  intros drv ms. unfold run.
  induction ms as [|m ms IH]; intros w Hms; simpl in *.
  - reflexivity.
  - apply andb_prop in Hms. destruct Hms as [Hm Hms].
    rewrite IH by exact Hms. apply step_selfsame. exact Hm.
Qed.

(** ** An object without a pool *)

(** X4. On an object built with [pool=False] the three pool methods raise
    [AttributeError] at their first use of a pool attribute, before any
    driver call, and leave everything as it was. *)
Theorem pool_methods_need_pool :
  forall drv w timeout retry_num connection conn_type,
    pooled (self w) = None ->
    create_pool drv w = (Raised (no_attribute "pool_init_size"), w) /\
    pool_get_connection drv timeout retry_num w = (Raised (no_attribute "pool"), w) /\
    pool_put_connection connection conn_type w = (Raised (no_attribute "pool"), w).
Proof.
  intros drv w timeout retry_num connection conn_type Hp.
  split; [|split].
  - unfold create_pool, bind, logger, self_pool_init_size. cbn. rewrite Hp.
    reflexivity.
  - rewrite pool_get_connection_eq.
    unfold pool_get_connection_body, try_except, bind, pool_get, on_pool, bind,
      self_pool.
    rewrite Hp. reflexivity.
  - unfold pool_put_connection, try_except, bind, logger, pool_put_nowait,
      on_pool, bind, self_pool.
    cbn. rewrite Hp. reflexivity.
Qed.

(** X15. On an object built with [pool=False], [execute_query_multiplex]
    gives neither the rows nor the statement error: when the statement
    succeeds and its rows are fetched, and when the statement fails with a
    statement-class error, the [AttributeError] of the release is what the
    caller gets. *)
Theorem multiplex_needs_pool :
  forall drv connection q a dictcursor return_one exec_many w,
    pooled (self w) = None ->
    match drv_execute drv (history_at_execute w connection dictcursor)
            (mkCursor connection dictcursor) exec_many q a with
    | None =>
        exists rows,
          drv_fetchall drv
            (history_at_fetch w connection dictcursor exec_many q a)
            (mkCursor connection dictcursor) = inr rows
    | Some e => is_statement_error e = true
    end ->
    fst (execute_query_multiplex drv connection q a dictcursor return_one
           exec_many w)
    = Raised (no_attribute "pool").
Proof.
  intros drv connection q a dictcursor return_one exec_many w Hp Hx.
  unfold history_at_fetch, history_at_execute in Hx.
  unfold execute_query_multiplex, with_cursor, finally, try_except, bind,
    conn_cursor, cursor_execute, cursor_fetchall, cursor_close,
    pool_put_connection, try_except, bind, logger, pool_put_nowait, on_pool,
    bind, self_pool.
  destruct exec_many; cbn in *;
    (destruct (drv_execute drv _ _ _ q a) as [e|]; cbn;
     [rewrite Hx; cbn; rewrite Hp; reflexivity
     |destruct Hx as [rows Hrows]; rewrite Hrows; cbn; rewrite Hp; reflexivity]).
Qed.

(** ** More on release and acquisition *)

(** X18. On a pooled object [pool_put_connection] always returns: the
    item goes to the tail of the store when the store is not full and is left
    out otherwise, and no driver call is made either way. *)
Theorem release_always_returns :
  forall connection conn_type w pa,
    pooled (self w) = Some pa ->
    exists w',
      pool_put_connection connection conn_type w = (Returned tt, w') /\
      pool_items w' = (if Queue_full (pool pa)
                       then pool_items w
                       else pool_items w ++ [connection]) /\
      calls w' = calls w.
Proof.
  intros connection conn_type w pa Hpa.
  destruct w as [[cfg p] h l]; simpl in Hpa; subst p.
  unfold pool_put_connection, try_except, bind, logger, pool_put_nowait,
    on_pool, bind, self_pool, Queue_put_nowait.
  cbn -[Queue_full].
  destruct (Queue_full (pool pa)); cbn.
  - destruct (String.eqb conn_type "new"); eexists; repeat split.
  - eexists; repeat split.
Qed.

Lemma can_wait_get q timeout item rest :
  can_wait timeout ->
  queue q = item :: rest ->
  Queue_get q timeout = Returned (item, mkQueue (maxsize q) rest).
Proof.
  intros Ht Hq. unfold Queue_get. rewrite Hq.
  destruct timeout as [t|]; [|reflexivity].
  simpl in Ht. rewrite (valid_timeout t Ht). reflexivity.
Qed.

(** An item is waiting and the timeout lets [Queue.get] look at the store. *)
Lemma pool_get_connection_takes drv timeout retry_num w pa item rest :
  pooled (self w) = Some pa ->
  queue (pool pa) = item :: rest ->
  can_wait timeout ->
  exists w',
    pool_get_connection drv timeout retry_num w = (Returned (Some item), w') /\
    pool_items w' = rest /\
    calls w' = calls w /\
    log w' = log w.
Proof.
  intros Hpa Hq Ht.
  destruct w as [[cfg p] h l]; simpl in Hpa; subst p.
  rewrite pool_get_connection_eq.
  unfold pool_get_connection_body, try_except, bind, pool_get, on_pool, bind,
    self_pool, logger.
  cbn -[Queue_get]. rewrite (can_wait_get _ _ _ _ Ht Hq). cbn.
  eexists; repeat split.
Qed.

(** X6. When the store holds an item and the timeout is [None] or not
    negative, [pool_get_connection] hands out the oldest item, whatever
    [retry_num]: the other items stay in order, no driver call is made and
    nothing is logged. *)
Theorem acquire_takes_oldest :
  forall drv timeout retry_num w pa item rest,
    pooled (self w) = Some pa ->
    queue (pool pa) = item :: rest ->
    can_wait timeout ->
    exists w',
      pool_get_connection drv timeout retry_num w = (Returned (Some item), w') /\
      pool_items w' = rest /\
      calls w' = calls w /\
      log w' = log w.
Proof.
  intros drv timeout retry_num w pa item rest.
  apply pool_get_connection_takes.
Qed.

(** X5. Release then acquire is first in, first out: after an item is
    released into a store with room, the next acquisition returns the item
    that was oldest (the released one if the store was empty) and leaves the
    others followed by the released one. *)
Theorem release_then_acquire_fifo :
  forall drv connection conn_type timeout retry_num w pa,
    pooled (self w) = Some pa ->
    Queue_full (pool pa) = false ->
    can_wait timeout ->
    exists w',
      bind (pool_put_connection connection conn_type)
           (fun _ => pool_get_connection drv timeout retry_num) w
      = (Returned (Some (hd connection (pool_items w))), w') /\
      pool_items w' = tl (pool_items w ++ [connection]) /\
      calls w' = calls w.
Proof.
  intros drv connection conn_type timeout retry_num w pa Hpa Hroom Ht.
  destruct w as [[cfg p] h l]; simpl in Hpa; subst p.
  destruct pa as [hl n [ms items]]. cbn [pool] in Hroom.
  unfold bind at 1.
  unfold pool_put_connection, try_except, bind, logger, pool_put_nowait,
    on_pool, bind, self_pool, Queue_put_nowait.
  cbn -[Queue_full pool_get_connection]. rewrite Hroom.
  cbn -[pool_get_connection].
  destruct (pool_get_connection_takes drv timeout retry_num
              (mkWorld (mkImprovedDb cfg
                 (Some (mkPoolAttrs hl n (mkQueue ms (items ++ [connection])))))
                 h l)
              (mkPoolAttrs hl n (mkQueue ms (items ++ [connection])))
              (hd connection items) (tl (items ++ [connection]))
              eq_refl) as (w' & Hrun & Hitems & Hcalls & _).
  - destruct items; reflexivity.
  - exact Ht.
  - exists w'. split; [exact Hrun|]. split; [exact Hitems|exact Hcalls].
Qed.

(** X7. A negative timeout makes [pool_get_connection] raise
    [ValueError] even when connections are waiting in the store: nothing is
    handed out, no connection is created, nothing changes. *)
Theorem acquire_negative_timeout :
  forall drv t retry_num w pa,
    pooled (self w) = Some pa ->
    (t < 0)%Q ->
    pool_get_connection drv (Some t) retry_num w = (Raised timeout_ValueError, w).
Proof.
  intros drv t retry_num w pa Hpa Ht.
  assert (Qle_bool 0 t = false) as Hneg.
  { destruct (Qle_bool 0 t) eqn:E; [|reflexivity].
    apply Qle_bool_iff in E. exfalso. exact (Qlt_not_le _ _ Ht E). }
  rewrite pool_get_connection_eq.
  unfold pool_get_connection_body, try_except, bind, pool_get, on_pool, bind,
    self_pool, Queue_get.
  rewrite Hpa, Hneg. reflexivity.
Qed.

(** X8. With [timeout=None] and an empty store [pool_get_connection]
    waits for ever: the replenishment branch is never entered, so no
    connection is created and nothing is logged. *)
Theorem acquire_without_timeout_blocks :
  forall drv retry_num w,
    store_empty w ->
    pool_get_connection drv None retry_num w = (Blocked, w).
Proof.
  intros drv retry_num w (pa & Hpa & Hq).
  rewrite pool_get_connection_eq.
  unfold pool_get_connection_body, try_except, bind, pool_get, on_pool, bind,
    self_pool, Queue_get.
  rewrite Hpa, Hq. reflexivity.
Qed.

Ltac run_acquire_once :=
  unfold pool_get_connection_body, try_except, bind, pool_get, on_pool, bind,
    self_pool, Queue_get, connect, try_except, bind, pymysql_connect,
    pool_put_connection, try_except, bind, logger, pool_put_nowait, on_pool,
    bind, self_pool, Queue_put_nowait;
  cbn -[pool_get_connection Z.sub Z.ltb].

(** X9. In a run that no other thread disturbs, every [retry_num] above 0
    is as good as 1: the call ends the same way and leaves the same world. *)
Theorem one_retry_is_enough :
  forall drv timeout retry_num w,
    (1 <= retry_num)%Z ->
    pool_get_connection drv timeout retry_num w
    = pool_get_connection drv timeout 1 w.
Proof.
  intros drv timeout retry_num w Hr.
  rewrite (pool_get_connection_eq drv timeout retry_num),
          (pool_get_connection_eq drv timeout 1).
  destruct w as [[cfg [[hl n [ms items]]|]] h l].
  2:{ run_acquire_once. reflexivity. }
  destruct timeout as [t|].
  2:{ run_acquire_once. destruct items; reflexivity. }
  destruct (Qle_bool 0 t) eqn:Ht.
  2:{ run_acquire_once. rewrite Ht. reflexivity. }
  destruct items as [|item rest].
  2:{ run_acquire_once. rewrite Ht. reflexivity. }
  run_acquire_once. rewrite Ht. cbn -[pool_get_connection Z.sub Z.ltb].
  destruct (drv_connect drv h cfg) as [e|]; cbn -[pool_get_connection Z.sub Z.ltb];
    [reflexivity|].
  rewrite Queue_full_empty. cbn -[pool_get_connection Z.sub Z.ltb].
  replace (0 <? retry_num)%Z with true by (symmetry; apply Z.ltb_lt; lia).
  change (0 <? 1)%Z with true. cbv iota.
  apply Qle_bool_iff in Ht.
  erewrite !pool_get_connection_hit; try reflexivity; exact Ht.
Qed.

(** X17. [db_close] does not take the connection out of the store: when
    the closed connection is the oldest item, the next acquisition hands it
    out, closed. *)
Theorem closed_connection_stays_in_store :
  forall drv connection timeout retry_num w pa rest,
    pooled (self w) = Some pa ->
    queue (pool pa) = ConnObj connection :: rest ->
    can_wait timeout ->
    exists w',
      bind (db_close connection)
           (fun _ => pool_get_connection drv timeout retry_num) w
      = (Returned (Some (ConnObj connection)), w') /\
      conn_closed connection (calls w') = true.
Proof.
  intros drv connection timeout retry_num w pa rest Hpa Hq Ht.
  unfold bind at 1.
  unfold db_close, bind, conn_close, logger.
  cbn -[pool_get_connection].
  destruct (pool_get_connection_takes drv timeout retry_num
              (record_call (CallConnClose connection) w) pa
              (ConnObj connection) rest Hpa Hq Ht)
    as (w' & Hrun & _ & Hcalls & _).
  exists w'. split; [exact Hrun|].
  rewrite Hcalls. unfold conn_closed, record_call; simpl.
  rewrite existsb_app; simpl. rewrite Nat.eqb_refl. apply orb_true_r.
Qed.

(** ** More on the query helpers and the factory *)

(** X10. When the statement raises, [execute_query] lets the exception
    out as it is, whatever its class: no row is fetched, the cursor is
    closed once on the way out, and the object and the log are untouched. *)
Theorem execute_query_error_propagates :
  forall drv connection q a dictcursor return_one exec_many w e,
    drv_execute drv (history_at_execute w connection dictcursor)
      (mkCursor connection dictcursor) exec_many q a = Some e ->
    exists w',
      execute_query drv connection q a dictcursor return_one exec_many w
      = (Raised e, w') /\
      calls w' = calls w ++
                 [CallCursor connection dictcursor;
                  CallExecute (mkCursor connection dictcursor) exec_many q a;
                  CallCursorClose (mkCursor connection dictcursor)] /\
      self w' = self w /\
      log w' = log w.
Proof.
  intros drv connection q a dictcursor return_one exec_many w e Hex.
  unfold history_at_execute in Hex.
  unfold execute_query, with_cursor, finally, try_except, bind, conn_cursor,
    cursor_execute, cursor_fetchall, cursor_close, raise.
  destruct exec_many; cbn in *; rewrite Hex; cbn;
    (eexists; split; [reflexivity|]; cbn; rewrite <- !app_assoc;
     repeat split).
Qed.

(** X12. When the statement raises an exception outside the four
    statement classes (an [OperationalError], say), [execute_query_multiplex]
    lets it out as it is and does not release the connection: the store is
    what it was, so the borrowed connection is lost to the pool unless the
    caller returns it. *)
Theorem multiplex_other_error_keeps_connection_out :
  forall drv connection q a dictcursor return_one exec_many w e,
    drv_execute drv (history_at_execute w connection dictcursor)
      (mkCursor connection dictcursor) exec_many q a = Some e ->
    is_statement_error e = false ->
    exists w',
      execute_query_multiplex drv connection q a dictcursor return_one
        exec_many w = (Raised e, w') /\
      self w' = self w /\
      calls w' = calls w ++
                 [CallCursor connection dictcursor;
                  CallExecute (mkCursor connection dictcursor) exec_many q a;
                  CallCursorClose (mkCursor connection dictcursor)] /\
      log w' = log w.
Proof.
  intros drv connection q a dictcursor return_one exec_many w e Hex He.
  unfold history_at_execute in Hex.
  unfold execute_query_multiplex, with_cursor, finally, try_except, bind,
    conn_cursor, cursor_execute, cursor_fetchall, cursor_close, raise.
  destruct exec_many; cbn in *; rewrite Hex; cbn; rewrite He; cbn;
    (eexists; split; [reflexivity|]; cbn; rewrite <- !app_assoc;
     repeat split).
Qed.

(** X13. When the statement succeeds, [execute_query_multiplex] is
    [execute_query] followed by [pool_put_connection]: the same outcome and
    the same world, on any object and whatever the store holds. *)
Theorem multiplex_is_execute_then_release :
  forall drv connection q a dictcursor return_one exec_many w,
    drv_execute drv (history_at_execute w connection dictcursor)
      (mkCursor connection dictcursor) exec_many q a = None ->
    execute_query_multiplex drv connection q a dictcursor return_one exec_many w
    = bind (execute_query drv connection q a dictcursor return_one exec_many)
        (fun res =>
           bind (pool_put_connection (ConnObj connection) "old")
                (fun _ => ret res))
        w.
Proof.
  intros drv connection q a dictcursor return_one exec_many w Hex.
  unfold history_at_execute in Hex.
  destruct w as [[cfg p] h l]. cbn in Hex.
  unfold execute_query_multiplex, execute_query, with_cursor, finally,
    try_except, bind, conn_cursor, cursor_execute, cursor_fetchall,
    cursor_close, pool_put_connection, try_except, bind, logger,
    pool_put_nowait, on_pool, bind, self_pool, Queue_put_nowait, ret, raise.
  destruct exec_many; cbn -[Queue_full]; rewrite Hex; cbn -[Queue_full];
    (destruct (drv_fetchall drv _ _) as [e|rows]; cbn -[Queue_full];
     [reflexivity|];
     destruct p as [pa|]; cbn -[Queue_full]; [|reflexivity];
     destruct (Queue_full (pool pa)); cbn; reflexivity).
Qed.

(** X16. [connect] ends as [pymysql.connect] does. If the driver raises,
    the same exception is raised after one error record is logged; if not,
    the new connection is returned, or with [cursor=True] a cursor on it of
    the kind asked for, and nothing is logged. *)
Theorem connect_follows_driver :
  forall drv cursor dictcursor recreate w,
    let r := connect drv cursor dictcursor recreate w in
    let c := connect_count (calls w) in
    match drv_connect drv (calls w) (db_config (self w)) with
    | Some e =>
        fst r = Raised e /\
        calls (snd r) = calls w ++ [CallConnect (db_config (self w))] /\
        log (snd r)
        = log w ++
          [mkLog ERROR
             (if recreate
              then "recreate connection error when pool lacking: {}"
              else "create connection error: {}")
             (ArgExn e)]
    | None =>
        fst r = Returned (if cursor
                          then CursorObj (mkCursor c dictcursor)
                          else ConnObj c) /\
        calls (snd r)
        = calls w ++ CallConnect (db_config (self w))
                     :: (if cursor then [CallCursor c dictcursor] else []) /\
        log (snd r) = log w
    end.
Proof.
  intros drv cursor dictcursor recreate w.
  unfold connect, try_except, bind, pymysql_connect, conn_cursor, logger,
    ret, raise.
  destruct (drv_connect drv (calls w) (db_config (self w))) as [e|];
    destruct cursor, recreate; cbn; rewrite <- ?app_assoc; repeat split.
Qed.

(** X19. In a run that no other thread disturbs, one acquisition creates
    at most one connection, whatever [retry_num]. *)
Theorem acquire_creates_at_most_one :
  forall drv timeout retry_num w,
    (connect_count (calls (snd (pool_get_connection drv timeout retry_num w)))
     <= S (connect_count (calls w)))%nat.
Proof.
  intros drv timeout retry_num w.
  assert (forall h k, List.length (filter is_connect (h ++ [CallConnect k]))
                      = S (List.length (filter is_connect h))) as Hcount.
  { intros h k. exact (connect_count_app h k). }
  rewrite pool_get_connection_eq. unfold connect_count.
  destruct w as [[cfg [[hl n [ms items]]|]] h l].
  2:{ run_acquire_once. lia. }
  destruct timeout as [t|].
  2:{ run_acquire_once. destruct items; cbn; lia. }
  destruct (Qle_bool 0 t) eqn:Ht.
  2:{ run_acquire_once. rewrite Ht. cbn. lia. }
  destruct items as [|item rest].
  2:{ run_acquire_once. rewrite Ht. cbn. lia. }
  run_acquire_once. rewrite Ht. cbn -[pool_get_connection Z.sub Z.ltb].
  destruct (drv_connect drv h cfg) as [e|]; cbn -[pool_get_connection Z.sub Z.ltb].
  - rewrite Hcount. lia.
  - rewrite Queue_full_empty. cbn -[pool_get_connection Z.sub Z.ltb].
    destruct (0 <? retry_num)%Z; cbn -[pool_get_connection Z.sub Z.ltb].
    + apply Qle_bool_iff in Ht.
      erewrite pool_get_connection_hit; try reflexivity; [|exact Ht].
      cbn. rewrite Hcount. lia.
    + rewrite Hcount. lia.
Qed.

(** ** When [fetchall] raises *)

(** X20. When the statement runs but [cur.fetchall()] raises,
    [execute_query_multiplex] lets the exception out as it is and does not
    release the connection, whatever the class of the exception, the
    statement classes included: the call stands after the [try] statement.
    The store and the log are what they were and the cursor is closed once. *)
Theorem multiplex_fetch_error_skips_release :
  forall drv connection q a dictcursor return_one exec_many w e,
    drv_execute drv (history_at_execute w connection dictcursor)
      (mkCursor connection dictcursor) exec_many q a = None ->
    drv_fetchall drv (history_at_fetch w connection dictcursor exec_many q a)
      (mkCursor connection dictcursor) = inl e ->
    exists w',
      execute_query_multiplex drv connection q a dictcursor return_one
        exec_many w = (Raised e, w') /\
      self w' = self w /\
      calls w' = calls w ++
                 [CallCursor connection dictcursor;
                  CallExecute (mkCursor connection dictcursor) exec_many q a;
                  CallFetchall (mkCursor connection dictcursor);
                  CallCursorClose (mkCursor connection dictcursor)] /\
      log w' = log w.
Proof.
  intros drv connection q a dictcursor return_one exec_many w e Hex Hfetch.
  unfold history_at_fetch, history_at_execute in *.
  unfold execute_query_multiplex, with_cursor, finally, try_except, bind,
    conn_cursor, cursor_execute, cursor_fetchall, cursor_close, raise.
  destruct exec_many; cbn in *; rewrite Hex; cbn; rewrite Hfetch; cbn;
    (eexists; split; [reflexivity|]; cbn; rewrite <- !app_assoc;
     repeat split).
Qed.

(** X21. When the statement runs but [cur.fetchall()] raises,
    [execute_query] lets the exception out as it is; the cursor is closed
    once, and the object and the log are untouched. *)
Theorem execute_query_fetch_error_propagates :
  forall drv connection q a dictcursor return_one exec_many w e,
    drv_execute drv (history_at_execute w connection dictcursor)
      (mkCursor connection dictcursor) exec_many q a = None ->
    drv_fetchall drv (history_at_fetch w connection dictcursor exec_many q a)
      (mkCursor connection dictcursor) = inl e ->
    exists w',
      execute_query drv connection q a dictcursor return_one exec_many w
      = (Raised e, w') /\
      self w' = self w /\
      calls w' = calls w ++
                 [CallCursor connection dictcursor;
                  CallExecute (mkCursor connection dictcursor) exec_many q a;
                  CallFetchall (mkCursor connection dictcursor);
                  CallCursorClose (mkCursor connection dictcursor)] /\
      log w' = log w.
Proof.
  intros drv connection q a dictcursor return_one exec_many w e Hex Hfetch.
  unfold history_at_fetch, history_at_execute in *.
  unfold execute_query, with_cursor, finally, try_except, bind,
    conn_cursor, cursor_execute, cursor_fetchall, cursor_close, raise.
  destruct exec_many; cbn in *; rewrite Hex; cbn; rewrite Hfetch; cbn;
    (eexists; split; [reflexivity|]; cbn; rewrite <- !app_assoc;
     repeat split).
Qed.

(** ** The further theorems at work on sample runs *)

Lemma fixed_driver_connects rows w k :
  connects_next (fixed_driver None None rows) w k.
Proof. intros i Hi. reflexivity. Defined.

Lemma create_pool_fills_witness :
  exists w',
    create_pool (fixed_driver None None []) (fresh_world 3) = (Returned tt, w') /\
    pool_items w' = [ConnObj 0; ConnObj 1; ConnObj 2] /\
    connect_count (calls w') = 3%nat.
Proof.
  destruct (create_pool_fills (fixed_driver None None []) (fresh_world 3)
              (mkPoolAttrs 100 3 (mkQueue 100 [])) eq_refl eq_refl
              ltac:(simpl; lia) (fixed_driver_connects [] _ _))
    as (w' & Hrun & Hitems & Hcalls & _).
  exists w'. split; [exact Hrun|]. split; [exact Hitems|].
  rewrite Hcalls. reflexivity.
Defined.


Lemma create_pool_fails_fast_witness :
  exists w',
    create_pool (failing_after 2 server_down) (fresh_world 5)
    = (Raised server_down, w') /\
    pool_items w' = [ConnObj 0; ConnObj 1] /\
    connect_count (calls w') = 3%nat.
Proof.
  assert (connects_next (failing_after 2 server_down) (fresh_world 5) 2) as Hok.
  { intros [|[|i]] Hi; [reflexivity|reflexivity|lia]. }
  destruct (create_pool_fails_fast (failing_after 2 server_down) (fresh_world 5)
              (mkPoolAttrs 100 5 (mkQueue 100 [])) 2 server_down
              eq_refl eq_refl ltac:(simpl; lia) ltac:(simpl; lia) Hok eq_refl)
    as (w' & Hrun & Hitems & Hcalls & _).
  exists w'. split; [exact Hrun|]. split; [exact Hitems|].
  rewrite Hcalls. reflexivity.
Defined.

Lemma pool_methods_need_pool_witness :
  pool_get_connection (fixed_driver None None []) (Some 3%Q) 1 plain_world
  = (Raised (no_attribute "pool"), plain_world).
Proof.
  exact (proj1 (proj2 (pool_methods_need_pool (fixed_driver None None [])
                         plain_world (Some 3%Q) 1 (ConnObj 0) "old" eq_refl))).
Defined.

Lemma multiplex_needs_pool_witness :
  fst (execute_query_multiplex (fixed_driver None (Some syntax_error) []) 0
         "SELEC 1" [] false false false plain_world)
  = Raised (no_attribute "pool").
Proof.
  exact (multiplex_needs_pool (fixed_driver None (Some syntax_error) []) 0
           "SELEC 1" [] false false false plain_world eq_refl eq_refl).
Defined.

Lemma release_always_returns_witness :
  exists w',
    pool_put_connection (ConnObj 0) "old"
      (borrowed_world (fixed_driver None None [])) = (Returned tt, w') /\
    pool_items w' = [ConnObj 1; ConnObj 0].
Proof.
  destruct (release_always_returns (ConnObj 0) "old"
              (borrowed_world (fixed_driver None None []))
              (mkPoolAttrs 100 2 (mkQueue 100 [ConnObj 1])) eq_refl)
    as (w' & Hrun & Hitems & _).
  exists w'. split; [exact Hrun|exact Hitems].
Defined.

Lemma acquire_takes_oldest_witness :
  exists w',
    pool_get_connection (fixed_driver None None []) None 0
      (filled_world (fixed_driver None None []) 2)
    = (Returned (Some (ConnObj 0)), w') /\
    pool_items w' = [ConnObj 1].
Proof.
  destruct (acquire_takes_oldest (fixed_driver None None []) None 0
              (filled_world (fixed_driver None None []) 2)
              (mkPoolAttrs 100 2 (mkQueue 100 [ConnObj 0; ConnObj 1]))
              (ConnObj 0) [ConnObj 1] eq_refl eq_refl I)
    as (w' & Hrun & Hitems & _).
  exists w'. split; [exact Hrun|exact Hitems].
Defined.

Lemma release_then_acquire_fifo_witness :
  exists w',
    bind (pool_put_connection (ConnObj 0) "old")
         (fun _ => pool_get_connection (fixed_driver None None []) (Some 1%Q) 1)
         (borrowed_world (fixed_driver None None []))
    = (Returned (Some (ConnObj 1)), w') /\
    pool_items w' = [ConnObj 0].
Proof.
  destruct (release_then_acquire_fifo (fixed_driver None None []) (ConnObj 0)
              "old" (Some 1%Q) 1 (borrowed_world (fixed_driver None None []))
              (mkPoolAttrs 100 2 (mkQueue 100 [ConnObj 1]))
              eq_refl eq_refl sample_timeout)
    as (w' & Hrun & Hitems & _).
  exists w'. split; [exact Hrun|exact Hitems].
Defined.

Lemma acquire_negative_timeout_witness :
  let w := filled_world (fixed_driver None None []) 2 in
  pool_items w = [ConnObj 0; ConnObj 1] /\
  pool_get_connection (fixed_driver None None []) (Some (-1)%Q) 1 w
  = (Raised timeout_ValueError, w).
Proof.
  cbv zeta. split; [reflexivity|].
  apply (acquire_negative_timeout (fixed_driver None None []) (-1)%Q 1
           (filled_world (fixed_driver None None []) 2)
           (mkPoolAttrs 100 2 (mkQueue 100 [ConnObj 0; ConnObj 1])) eq_refl).
  reflexivity.
Defined.

Lemma acquire_without_timeout_blocks_witness :
  pool_get_connection (fixed_driver None None []) None 1 (fresh_world 10)
  = (Blocked, fresh_world 10).
Proof.
  exact (acquire_without_timeout_blocks (fixed_driver None None []) 1
           (fresh_world 10) (fresh_world_empty 10)).
Defined.

Lemma one_retry_is_enough_witness :
  pool_get_connection (fixed_driver None None []) (Some 1%Q) 5 (fresh_world 10)
  = pool_get_connection (fixed_driver None None []) (Some 1%Q) 1 (fresh_world 10).
Proof.
  apply (one_retry_is_enough (fixed_driver None None []) (Some 1%Q) 5
           (fresh_world 10)).
  lia.
Defined.

Lemma closed_connection_stays_in_store_witness :
  exists w',
    bind (db_close 0)
         (fun _ => pool_get_connection (fixed_driver None None []) (Some 1%Q) 1)
         (filled_world (fixed_driver None None []) 2)
    = (Returned (Some (ConnObj 0)), w') /\
    conn_closed 0 (calls w') = true.
Proof.
  exact (closed_connection_stays_in_store (fixed_driver None None []) 0
           (Some 1%Q) 1 (filled_world (fixed_driver None None []) 2)
           (mkPoolAttrs 100 2 (mkQueue 100 [ConnObj 0; ConnObj 1]))
           [ConnObj 1] eq_refl eq_refl sample_timeout).
Defined.

Lemma execute_query_error_propagates_witness :
  exists w',
    execute_query (fixed_driver None (Some syntax_error) []) 0 "SELEC 1" []
      false false false (borrowed_world (fixed_driver None (Some syntax_error) []))
    = (Raised syntax_error, w') /\
    pool_items w' = [ConnObj 1].
Proof.
  destruct (execute_query_error_propagates
              (fixed_driver None (Some syntax_error) []) 0 "SELEC 1" []
              false false false
              (borrowed_world (fixed_driver None (Some syntax_error) []))
              syntax_error eq_refl)
    as (w' & Hrun & _ & Hself & _).
  exists w'. split; [exact Hrun|].
  unfold pool_items. rewrite Hself. reflexivity.
Defined.

Lemma multiplex_other_error_keeps_connection_out_witness :
  exists w',
    execute_query_multiplex (fixed_driver None (Some server_down) []) 0
      "SELECT 1" [] false false false
      (borrowed_world (fixed_driver None (Some server_down) []))
    = (Raised server_down, w') /\
    pool_items w' = [ConnObj 1].
Proof.
  destruct (multiplex_other_error_keeps_connection_out
              (fixed_driver None (Some server_down) []) 0 "SELECT 1" []
              false false false
              (borrowed_world (fixed_driver None (Some server_down) []))
              server_down eq_refl eq_refl)
    as (w' & Hrun & Hself & _).
  exists w'. split; [exact Hrun|].
  unfold pool_items. rewrite Hself. reflexivity.
Defined.

Lemma multiplex_is_execute_then_release_witness :
  let drv := fixed_driver None None two_rows in
  execute_query_multiplex drv 0 "SELECT id, name FROM t" [] false false false
    (borrowed_world drv)
  = bind (execute_query drv 0 "SELECT id, name FROM t" [] false false false)
      (fun res => bind (pool_put_connection (ConnObj 0) "old") (fun _ => ret res))
      (borrowed_world drv).
Proof.
  cbv zeta.
  exact (multiplex_is_execute_then_release (fixed_driver None None two_rows) 0
           "SELECT id, name FROM t" [] false false false
           (borrowed_world (fixed_driver None None two_rows)) eq_refl).
Defined.

Lemma only_db_close_closes_witness :
  let drv := fixed_driver None (Some syntax_error) [] in
  conn_closed 0
    (calls (run drv
              [CreatePool; Acquire (Some 1%Q) 1;
               ExecuteAndRelease 0 "SELEC 1" [] false false false;
               Release (ConnObj 0) "old"]
              (fresh_world 2)))
  = false.
Proof.
  cbv zeta.
  exact (only_db_close_closes (fixed_driver None (Some syntax_error) [])
           [CreatePool; Acquire (Some 1%Q) 1;
            ExecuteAndRelease 0 "SELEC 1" [] false false false;
            Release (ConnObj 0) "old"]
           (fresh_world 2) 0 eq_refl).
Defined.

Lemma driver_calls_leave_object_witness :
  let drv := fixed_driver None None two_rows in
  self (run drv
          [Connect true true false;
           Execute 0 "SELECT id, name FROM t" [] false true false;
           Close 0]
          (borrowed_world drv))
  = self (borrowed_world drv).
Proof.
  cbv zeta.
  exact (driver_calls_leave_object (fixed_driver None None two_rows)
           [Connect true true false;
            Execute 0 "SELECT id, name FROM t" [] false true false;
            Close 0]
           (borrowed_world (fixed_driver None None two_rows)) eq_refl).
Defined.

Lemma multiplex_fetch_error_skips_release_witness :
  let drv := idle_executemany_driver [] in
  exists w',
    execute_query_multiplex drv 0 "INSERT INTO t VALUES (%s, %s)" [] false
      false true (borrowed_world drv)
    = (Raised execute_first, w') /\
    is_statement_error execute_first = true /\
    pool_items w' = [ConnObj 1].
Proof.
  cbv zeta.
  destruct (multiplex_fetch_error_skips_release (idle_executemany_driver []) 0
              "INSERT INTO t VALUES (%s, %s)" [] false false true
              (borrowed_world (idle_executemany_driver []))
              execute_first eq_refl eq_refl)
    as (w' & Hrun & Hself & _).
  exists w'. split; [exact Hrun|]. split; [reflexivity|].
  unfold pool_items. rewrite Hself. reflexivity.
Defined.

Lemma execute_query_fetch_error_propagates_witness :
  let drv := idle_executemany_driver [] in
  exists w',
    execute_query drv 0 "INSERT INTO t VALUES (%s, %s)" [] false true true
      (borrowed_world drv)
    = (Raised execute_first, w') /\
    pool_items w' = [ConnObj 1].
Proof.
  cbv zeta.
  destruct (execute_query_fetch_error_propagates (idle_executemany_driver []) 0
              "INSERT INTO t VALUES (%s, %s)" [] false true true
              (borrowed_world (idle_executemany_driver []))
              execute_first eq_refl eq_refl)
    as (w' & Hrun & Hself & _).
  exists w'. split; [exact Hrun|].
  unfold pool_items. rewrite Hself. reflexivity.
Defined.
